(** * MCP tool server: JSON-RPC dispatch, tool authorization and OAuth2
      token lifecycle

    A shallow embedding of the request path of the server:

    - [getToolsForUser]            (getUserTools.ts)
    - [handleToolCall]             (handleToolCall.ts)
    - [Routes.post_mcp]            (routes.ts, the router with the
                                    [jsonrpc] validation)
    - [RoutesV2.post_mcp]          (the router variant that validates
                                    [userId] first and serves
                                    resources/list and prompts/list)
    - [GmailSender.handler]        (GMAIL_SENDER with proactive refresh
                                    and refresh-and-retry)
    - [GmailSenderBasic.handler]   (toolsFolder/GMAIL_SENDER.ts, no refresh)
    - [CalendarEventCreator.handler] (CALENDAR_EVENT_CREATOR)
    - [Sse.serve]                  (the /sse and /messages endpoints)
    - [loadAllTools]               (toolRegistry.ts)
    - [Legacy.handleGmailSender]   (the Gmail sender of the switch-based
                                    handleToolCall)
    - [Artifact.handler]           (toolsFolder/artifact.ts)

    JavaScript values are a small JSON-like datatype; asynchronous code that
    reads the database, calls a provider or throws is written in a state and
    exception monad over a [World] that holds the two Prisma tables the code
    touches and a chronological trace of the external calls performed. *)

From stdpp Require Import base strings gmap list.
From Stdlib Require Import ZArith DecimalString Lia.

Set Warnings "-register-all".

Open Scope string_scope.
Open Scope Z_scope.
Open Scope list_scope.

(** ** JavaScript values *)

Inductive JValue : Type :=
| JUndefined
| JNull
| JBool (b : bool)
| JNum (n : Z)
| JStr (s : string)
| JArr (items : list JValue)
| JObj (fields : list (string * JValue)).

(** Numbers are the integers a JSON body or a status code carries; the code
    never does arithmetic on request data. *)

Module Js.

(** The double quote character, used inside message templates. *)
Definition dq : string := String (Ascii.ascii_of_nat 34) EmptyString.

(** ToBoolean. *)
Definition truthy (v : JValue) : bool :=
  match v with
  | JUndefined | JNull => false
  | JBool b => b
  | JNum n => negb (n =? 0)
  | JStr s => negb (String.eqb s "")
  | JArr _ | JObj _ => true
  end.

(** [a || b] on values. *)
Definition or_else (a b : JValue) : JValue := if truthy a then a else b.

Fixpoint lookup_field (k : string) (fs : list (string * JValue)) : option JValue :=
  match fs with
  | [] => None
  | (k', v) :: rest => if String.eqb k k' then Some v else lookup_field k rest
  end.

(** [v.k] for the fixed property names the code reads (jsonrpc, id, method,
    params, name, arguments, userId, toMail, ...): none of them is an array
    index, [length], or inherited from a prototype, so on arrays and
    primitives the read yields [undefined]; on [undefined] and [null] it
    is a TypeError ([None]). *)
Definition get_prop (v : JValue) (k : string) : option JValue :=
  match v with
  | JUndefined | JNull => None
  | JObj fs => Some (default JUndefined (lookup_field k fs))
  | _ => Some JUndefined
  end.

(** [k in v], for the same property names: a TypeError ([None]) when [v]
    is not an object. *)
Definition has_prop (k : string) (v : JValue) : option bool :=
  match v with
  | JObj fs => Some (bool_decide (is_Some (lookup_field k fs)))
  | JArr _ => Some false
  | _ => None
  end.

(** [o[k] = v] on an object literal under construction: replaces the
    binding in place, or appends it. *)
Fixpoint obj_set (k : string) (v : JValue) (fs : list (string * JValue))
  : list (string * JValue) :=
  match fs with
  | [] => [(k, v)]
  | (k', v') :: rest =>
      if String.eqb k k' then (k, v) :: rest else (k', v') :: obj_set k v rest
  end.

Fixpoint obj_remove (k : string) (fs : list (string * JValue))
  : list (string * JValue) :=
  match fs with
  | [] => []
  | (k', v') :: rest =>
      if String.eqb k k' then obj_remove k rest else (k', v') :: obj_remove k rest
  end.

Definition nat_to_string (n : nat) : string :=
  NilZero.string_of_uint (Nat.to_uint n).

Definition Z_to_string (n : Z) : string :=
  NilZero.string_of_int (Z.to_int n).

Fixpoint indexed {A} (f : A -> JValue) (i : nat) (xs : list A)
  : list (string * JValue) :=
  match xs with
  | [] => []
  | x :: rest => (nat_to_string i, f x) :: indexed f (S i) rest
  end.

Definition chars (s : string) : list JValue :=
  (fun a => JStr (String a EmptyString)) <$> String.list_ascii_of_string s.

(** The own enumerable properties copied by [{...v}] and by a rest
    pattern: nothing for [undefined], [null], numbers and booleans; the
    indexed elements of arrays and strings. *)
Definition spread (v : JValue) : list (string * JValue) :=
  match v with
  | JObj fs => fs
  | JArr xs => indexed id 0 xs
  | JStr s => indexed id 0 (chars s)
  | _ => []
  end.

Fixpoint join (sep : string) (parts : list string) : string :=
  match parts with
  | [] => ""
  | [p] => p
  | p :: rest => p +:+ sep +:+ join sep rest
  end.

(** ToString as a template literal or [Array.prototype.join] applies it.
    A plain object prints as [[object Object]] unless it carries an own
    [toString] or [valueOf] entry: parsed from JSON these are not callable
    and the conversion is a TypeError ([None]). *)
Fixpoint to_string (v : JValue) : option string :=
  match v with
  | JUndefined => Some "undefined"
  | JNull => Some "null"
  | JBool true => Some "true"
  | JBool false => Some "false"
  | JNum n => Some (Z_to_string n)
  | JStr s => Some s
  | JArr xs =>
      join "," <$>
        (fix elems (l : list JValue) : option (list string) :=
           match l with
           | [] => Some []
           | x :: rest =>
               match (match x with
                      | JUndefined | JNull => Some ""
                      | _ => to_string x
                      end), elems rest with
               | Some s, Some ss => Some (s :: ss)
               | _, _ => None
               end
           end) xs
  | JObj fs =>
      match lookup_field "toString" fs, lookup_field "valueOf" fs with
      | None, None => Some "[object Object]"
      | _, _ => None
      end
  end.

(** [s.includes(sub)]. *)
Fixpoint includes (s sub : string) : bool :=
  String.prefix sub s
  || match s with
     | EmptyString => false
     | String _ s' => includes s' sub
     end.

(** [a === b] against a string or number literal. *)
Definition is_str (v : JValue) (lit : string) : bool :=
  match v with JStr s => String.eqb s lit | _ => false end.

Definition is_num (v : JValue) (lit : Z) : bool :=
  match v with JNum n => n =? lit | _ => false end.

End Js.

(** ** Errors *)

(** A thrown value, as the catch blocks inspect it: [error.code] and
    [error.message]. *)
Record JsError : Type := mkError { err_code : JValue; err_message : string }.

(** [new Error(msg)]. *)
Definition Error (msg : string) : JsError :=
  {| err_code := JUndefined; err_message := msg |}.

Definition TypeError_primitive : JsError :=
  Error "Cannot convert object to primitive value".

Definition TypeError_read : JsError :=
  Error "Cannot read properties of undefined".

Definition TypeError_in : JsError :=
  Error "Cannot use 'in' operator to search for a key in a primitive".

(** ** Persistent state: the two Prisma tables the request path touches *)

(** model UserTool, unique on (userId, toolId). *)
Record UserTool : Type := mkUserTool {
  ut_userId : string;
  ut_toolId : string;
  ut_authorized : bool
}.

(** model AccessKey, keyed by its unique (userId, toolId). *)
Record AccessKey : Type := mkAccessKey {
  accessToken : string;
  refreshToken : option string;
  expiryDate : Z    (* milliseconds since the epoch *)
}.

(** ** External calls, in the order they are performed *)

Inductive Event : Type :=
| EvUserToolFindMany (userId : option string)
| EvAccessKeyFindUnique (userId toolId : string)
| EvAccessKeyUpdate (userId toolId : string)
| EvNow
| EvRefresh (refresh_token : string)
| EvProvider (tool : string) (access_token : string) (request : JValue)
| EvHandler (name : string) (toolArgs userId : JValue).

Record World : Type := mkWorld {
  userTool : list UserTool;
  accessKey : gmap (string * string) AccessKey;
  trace : list Event
}.

(** ** The monad of asynchronous code: state and exceptions *)

Inductive Result (A : Type) : Type :=
| Ok (a : A)
| Thrown (e : JsError).
Arguments Ok {A} a.
Arguments Thrown {A} e.

Definition M (A : Type) : Type := World -> Result A * World.

Definition ret {A} (a : A) : M A := fun w => (Ok a, w).

Definition throw {A} (e : JsError) : M A := fun w => (Thrown e, w).

Definition bind {A B} (m : M A) (k : A -> M B) : M B :=
  fun w =>
    match m w with
    | (Ok a, w') => k a w'
    | (Thrown e, w') => (Thrown e, w')
    end.

(** [try { m } catch (error) { h error }]. *)
Definition try_catch {A} (m : M A) (h : JsError -> M A) : M A :=
  fun w =>
    match m w with
    | (Ok a, w') => (Ok a, w')
    | (Thrown e, w') => h e w'
    end.

Notation "x <- m ;; k" := (bind m (fun x => k))
  (at level 100, m at next level, right associativity).
Notation "m ;;; k" := (bind m (fun _ => k))
  (at level 100, right associativity).

Definition emit (e : Event) : M unit :=
  fun w => (Ok tt, {| userTool := userTool w; accessKey := accessKey w;
                      trace := trace w ++ [e] |}).

(** Lifts a pure step that may raise a TypeError. *)
Definition lift_opt {A} (e : JsError) (o : option A) : M A :=
  match o with
  | Some a => ret a
  | None => throw e
  end.

(** Template-literal interpolation. *)
Definition interp (v : JValue) : M string := lift_opt TypeError_primitive (Js.to_string v).

Definition read (v : JValue) (k : string) : M JValue :=
  lift_opt TypeError_read (Js.get_prop v k).

Definition key_in (k : string) (v : JValue) : M bool :=
  lift_opt TypeError_in (Js.has_prop k v).

(** ** Prisma queries *)

(** Prisma rejects a filter value of the wrong type before touching the
    database. *)
Definition PrismaValidationError : JsError :=
  Error "Invalid value provided for the userId filter".

(** [prisma.userTool.findMany({ where: { userId }, select: { toolId: true } })].
    Prisma treats an [undefined] filter value as no condition at all. *)
Definition userTool_findMany (userId : JValue) : M (list UserTool) :=
  match userId with
  | JStr u =>
      emit (EvUserToolFindMany (Some u)) ;;;
      fun w => (Ok (filter (fun r => ut_userId r = u) (userTool w)), w)
  | JUndefined =>
      emit (EvUserToolFindMany None) ;;;
      fun w => (Ok (userTool w), w)
  | _ => throw PrismaValidationError
  end.

(** [prisma.accessKey.findUnique({ where: { userId_toolId: { userId, toolId } } })]. *)
Definition accessKey_findUnique (userId toolId : string) : M (option AccessKey) :=
  emit (EvAccessKeyFindUnique userId toolId) ;;;
  fun w => (Ok (accessKey w !! (userId, toolId)), w).

(** Prisma's error for an update whose record does not exist. *)
Definition RecordNotFound : JsError :=
  {| err_code := JStr "P2025";
     err_message := "Record to update not found." |}.

(** [prisma.accessKey.update({ where: { userId_toolId }, data })]: [data]
    maps the stored row to the updated one. *)
Definition accessKey_update (userId toolId : string) (data : AccessKey -> AccessKey)
  : M unit :=
  emit (EvAccessKeyUpdate userId toolId) ;;;
  fun w =>
    match accessKey w !! (userId, toolId) with
    | Some row =>
        (Ok tt, {| userTool := userTool w;
                   accessKey := <[(userId, toolId) := data row]> (accessKey w);
                   trace := trace w |})
    | None => (Thrown RecordNotFound, w)
    end.

(** ** The tool registry (toolRegistry.ts) *)

Record Tool : Type := mkTool {
  name : string;
  description : string;
  inputSchema : JValue
}.

Definition tool_json (t : Tool) : JValue :=
  JObj [("name", JStr (name t));
        ("description", JStr (description t));
        ("inputSchema", inputSchema t)].

(** A tool handler, [(args, userId) => Promise<any>]. *)
Definition Handler : Type := JValue -> JValue -> M JValue.

(** The runtime registry: the [tools] array in registration order and the
    [toolHandlers] record, read as [toolHandlers[key]] (a value that is
    falsy reads as [None]). *)
Record Registry : Type := mkRegistry {
  tools : list Tool;
  toolHandlers : string -> option Handler
}.

(** ** getToolsForUser (getUserTools.ts) *)

Definition getToolsForUser (userId : JValue) (allTools : list Tool) : M (list Tool) :=
  userToolEntries <- userTool_findMany userId ;;
  let subscribedToolIds := ut_toolId <$> userToolEntries in
  let filteredTools := filter (fun tool => name tool ∈ subscribedToolIds) allTools in
  ret filteredTools.

(** ** handleToolCall (handleToolCall.ts) *)

(** [{ content: [{ type: "text", text }], isError: true }]. *)
Definition tool_error (text : string) : JValue :=
  JObj [("content", JArr [JObj [("type", JStr "text"); ("text", JStr text)]]);
        ("isError", JBool true)].

(** [allowedTools.includes(name)]: strict equality with one of the strings. *)
Definition array_includes (allowed : list string) (v : JValue) : bool :=
  match v with
  | JStr s => bool_decide (s ∈ allowed)
  | _ => false
  end.

Definition access_denied_text (n : string) : string :=
  "❌ Access denied. Tool " +:+ Js.dq +:+ n +:+ Js.dq +:+
  " is not subscribed for this user.".

Definition not_implemented_text (n : string) : string :=
  "❌ Tool " +:+ Js.dq +:+ n +:+ Js.dq +:+ " is not implemented.".

Definition handleToolCall (reg : Registry) (name args : JValue) : M JValue :=
  if negb (Js.truthy args) then
    n <- interp name ;;
    ret (tool_error ("No arguments provided for tool: " +:+ n))
  else
    (* const { userId, ...toolArgs } = args; *)
    userId <- read args "userId" ;;
    let toolArgs := JObj (Js.obj_remove "userId" (Js.spread args)) in
    userTools <- userTool_findMany userId ;;
    let allowedTools := ut_toolId <$> userTools in
    if negb (array_includes allowedTools name) then
      n <- interp name ;;
      ret (tool_error (access_denied_text n))
    else
      key <- interp name ;;
      match toolHandlers reg key with
      | None => ret (tool_error (not_implemented_text key))
      | Some handler =>
          emit (EvHandler key toolArgs userId) ;;;
          handler toolArgs userId
      end.

(** ** HTTP responses *)

(** [res.status(s).json(body)] or [res.status(s).send()]. *)
Record Response : Type := mkResponse {
  status : Z;
  body : option JValue
}.

Definition json (status : Z) (body : JValue) : Response :=
  {| status := status; body := Some body |}.

Definition no_content : Response := {| status := 204; body := None |}.

Definition rpc_result (result id : JValue) : JValue :=
  JObj [("jsonrpc", JStr "2.0"); ("result", result); ("id", id)].

Definition rpc_error (code : Z) (message : string) (id : JValue) : JValue :=
  JObj [("jsonrpc", JStr "2.0");
        ("error", JObj [("code", JNum code); ("message", JStr message)]);
        ("id", id)].

(** [req.query.userId], absent or a string. *)
Definition query_value (userId : option string) : JValue :=
  match userId with
  | Some u => JStr u
  | None => JUndefined
  end.

(** [a && b] where both sides are evaluated for their value. *)
Definition and_then (a b : M bool) : M bool :=
  x <- a ;; if x then b else ret false.

(** ** POST /mcp (routes.ts) *)

Module Routes.

Definition initialize_result : JValue :=
  JObj [("protocolVersion", JStr "2024-11-05");
        ("capabilities", JObj [("tools", JObj [])]);
        ("serverInfo", JObj [("name", JStr "example-server");
                             ("version", JStr "1.0.0")])].

(** The [switch (request.method)] of a request. *)
Definition dispatch (reg : Registry) (request : JValue) (userId : option string)
  : M JValue :=
  method <- read request "method" ;;
  if Js.is_str method "initialize" then
    ret initialize_result
  else if Js.is_str method "tools/list" then
    filteredTools <- getToolsForUser (query_value userId) (tools reg) ;;
    ret (JObj [("tools", JArr (tool_json <$> filteredTools))])
  else if Js.is_str method "tools/call" then
    params <- read request "params" ;;
    if negb (Js.truthy params) then
      throw (Error "Missing parameters for tools/call")
    else
      name <- read params "name" ;;
      args <- read params "arguments" ;;
      let argsWithUser :=
        JObj (Js.obj_set "userId" (query_value userId) (Js.spread args)) in
      handleToolCall reg name argsWithUser
  else
    m <- interp method ;;
    throw (Error ("Method not found: " +:+ m)).

Definition post_mcp (reg : Registry) (message : JValue) (userId : option string)
  : M Response :=
  try_catch
    (jsonrpc <- read message "jsonrpc" ;;
     if negb (Js.truthy jsonrpc) || negb (Js.is_str jsonrpc "2.0") then
       id <- read message "id" ;;
       ret (json 400 (rpc_error (-32600)
                        "Invalid Request - missing or invalid jsonrpc field"
                        (Js.or_else id JNull)))
     else
       is_request <- and_then (key_in "method" message) (key_in "id" message) ;;
       if is_request then
         let request := message in
         try_catch
           (result <- dispatch reg request userId ;;
            id <- read request "id" ;;
            ret (json 200 (rpc_result result id)))
           (fun error =>
              id <- read request "id" ;;
              ret (json 500 (rpc_error (-32603) (err_message error) id)))
       else
         is_notification <-
           and_then (key_in "method" message)
                    (has_id <- key_in "id" message ;; ret (negb has_id)) ;;
         if is_notification then
           ret no_content
         else
           id <- read message "id" ;;
           ret (json 400 (rpc_error (-32600) "Invalid Request - missing method"
                            (Js.or_else id JNull))))
    (fun _ => ret (json 400 (rpc_error (-32700) "Parse error" JNull))).

End Routes.

(** ** POST /mcp, the router variant that validates [userId] *)

Module RoutesV2.

Definition initialize_result : JValue :=
  JObj [("protocolVersion", JStr "2024-11-05");
        ("capabilities", JObj [("tools", JObj []);
                               ("resources", JObj []);
                               ("prompts", JObj [])]);
        ("serverInfo", JObj [("name", JStr "example-server");
                             ("version", JStr "1.0.0")])].

Definition dispatch (reg : Registry) (request : JValue) (userId : option string)
  : M JValue :=
  method <- read request "method" ;;
  if Js.is_str method "initialize" then
    ret initialize_result
  else if Js.is_str method "tools/list" then
    try_catch
      (filteredTools <- getToolsForUser (query_value userId) (tools reg) ;;
       ret (JObj [("tools", JArr (tool_json <$> filteredTools))]))
      (fun error =>
         throw (Error ("Failed to get tools for user: " +:+ err_message error)))
  else if Js.is_str method "tools/call" then
    params <- read request "params" ;;
    if negb (Js.truthy params) then
      throw (Error "Missing parameters for tools/call")
    else
      name <- read params "name" ;;
      args <- read params "arguments" ;;
      if negb (Js.truthy name) then
        throw (Error "Missing tool name in tools/call")
      else
        let argsWithUser :=
          JObj (Js.obj_set "userId" (query_value userId) (Js.spread args)) in
        try_catch
          (handleToolCall reg name argsWithUser)
          (fun error =>
             throw (Error ("Tool execution failed: " +:+ err_message error)))
  else if Js.is_str method "resources/list" then
    ret (JObj [("resources", JArr [])])
  else if Js.is_str method "prompts/list" then
    ret (JObj [("prompts", JArr [])])
  else
    m <- interp method ;;
    throw (Error ("Method not found: " +:+ m)).

(** [message?.id]. *)
Definition optional_id (message : JValue) : JValue :=
  default JUndefined (Js.get_prop message "id").

Definition post_mcp (reg : Registry) (message : JValue) (userId : option string)
  : M Response :=
  try_catch
    (if negb (Js.truthy (query_value userId)) then
       ret (json 400 (rpc_error (-32602) "Missing required userId parameter"
                        (Js.or_else (optional_id message) JNull)))
     else
       is_request <- and_then (key_in "method" message) (key_in "id" message) ;;
       if is_request then
         let request := message in
         try_catch
           (result <- dispatch reg request userId ;;
            id <- read request "id" ;;
            ret (json 200 (rpc_result result id)))
           (fun error =>
              id <- read request "id" ;;
              ret (json 500 (rpc_error (-32603) (err_message error) id)))
       else
         is_notification <-
           and_then (key_in "method" message)
                    (has_id <- key_in "id" message ;; ret (negb has_id)) ;;
         if is_notification then
           (* the switch on message.method only logs *)
           ret no_content
         else
           id <- read message "id" ;;
           ret (json 400 (rpc_error (-32600) "Invalid Request - missing method"
                            (Js.or_else id JNull))))
    (fun _ => ret (json 400 (rpc_error (-32700) "Parse error or invalid request"
                               JNull))).

End RoutesV2.

(** ** External collaborators of the provider-backed tools *)

(** What [oauth2Client.refreshAccessToken()] settles to: the credentials of
    the token response, or a rejection. *)
Inductive RefreshReply : Type :=
| RefreshOk (access_token refresh_token : option string)
| RefreshFail (e : JsError).

(** What a provider API call settles to: [res.data], or a rejection. *)
Inductive ProviderReply : Type :=
| ProviderOk (data : JValue)
| ProviderFail (e : JsError).

(** The environment of a handler. Provider and clock are oracles indexed by
    the number of earlier calls of the same kind, so that one [External]
    describes any sequence of outcomes. *)
Record External : Type := mkExternal {
  process_env : string -> option string;
  oauth_reply : nat -> RefreshReply;
  provider_reply : nat -> ProviderReply;
  clock : nat -> Z;
  (** [new Date(v).getTime()], [None] when it is NaN. *)
  date_time : JValue -> option Z;
  (** [v > 0] on a value that is not a number. *)
  is_positive : JValue -> bool;
  (** [Buffer.from(s).toString("base64")] made URL-safe and unpadded. *)
  encode_raw : string -> string;
  (** [Math.random().toString(36).substr(2, 9)], by number of draws so far
      (one per [Date.now()] of a request id). *)
  random_id : nat -> string;
  (** The text the calendar handler renders from [response.data] and the
      attendees with [toLocaleString]; [None] when rendering throws. *)
  render_event : JValue -> JValue -> option string
}.

Definition is_refresh (e : Event) : bool :=
  match e with EvRefresh _ => true | _ => false end.

Definition is_provider (e : Event) : bool :=
  match e with EvProvider _ _ _ => true | _ => false end.

Definition is_now (e : Event) : bool :=
  match e with EvNow => true | _ => false end.

Definition is_handler (e : Event) : bool :=
  match e with EvHandler _ _ _ => true | _ => false end.

Definition count (p : Event -> bool) (evs : list Event) : nat :=
  length (filter (fun e => p e = true) evs).

(** [Date.now()]. *)
Definition date_now (ext : External) : M Z :=
  fun w => bind (emit EvNow) (fun _ => ret (clock ext (count is_now (trace w)))) w.

(** [oauth2Client.refreshAccessToken()] with the client's refresh token. *)
Definition oauth_refreshAccessToken (ext : External) (refresh_token : string)
  : M (option string * option string) :=
  fun w =>
    bind (emit (EvRefresh refresh_token))
      (fun _ =>
         match oauth_reply ext (count is_refresh (trace w)) with
         | RefreshOk a r => ret (a, r)
         | RefreshFail e => throw e
         end) w.

(** A provider API call made with the client's access token. *)
Definition provider_call (ext : External) (tool access_token : string)
    (request : JValue) : M JValue :=
  fun w =>
    bind (emit (EvProvider tool access_token request))
      (fun _ =>
         match provider_reply ext (count is_provider (trace w)) with
         | ProviderOk data => ret data
         | ProviderFail e => throw e
         end) w.

(** Truthiness of an optional string ([undefined], [null] and [""] are
    falsy). *)
Definition present (s : option string) : option string :=
  match s with
  | Some t => if String.eqb t "" then None else Some t
  | None => None
  end.

(** [{ content: [{ type: "text", text }] }]. *)
Definition tool_text (text : string) : JValue :=
  JObj [("content", JArr [JObj [("type", JStr "text"); ("text", JStr text)]])].

(** The Prisma client accepts only a string for [userId]. *)
Definition key_string (userId : JValue) : M string :=
  match userId with
  | JStr u => ret u
  | _ => throw PrismaValidationError
  end.

(** [process.env.X] is set to a non-empty string. *)
Definition env_set (ext : External) (var : string) : bool :=
  bool_decide (is_Some (present (process_env ext var))).

Definition google_oauth_configured (ext : External) : bool :=
  env_set ext "GOOGLE_CLIENT_ID"
  && env_set ext "GOOGLE_CLIENT_SECRET"
  && env_set ext "GOOGLE_REDIRECT_URI".

(** [accessKey?.refreshToken], when truthy. *)
Definition optional_refreshToken (accessKey : option AccessKey) : option string :=
  match accessKey with
  | Some row => present (refreshToken row)
  | None => None
  end.

(** A step of a handler either returns from the handler ([Return]) or lets
    it go on with a value ([Next]). *)
Inductive Step (A : Type) : Type :=
| Return (result : JValue)
| Next (a : A).
Arguments Return {A} result.
Arguments Next {A} a.

(** ** GMAIL_SENDER with token refresh *)

Module GmailSender.

Definition toolId : string := "GMAIL_SENDER".

(** Whether the token needs a refresh: no expiry known, or it expires
    within the next 5 minutes. *)
Definition shouldRefreshToken (ext : External) (expiryDate : option Z) : M bool :=
  match expiryDate with
  | None => ret true
  | Some expiry =>
      now <- date_now ext ;;
      let fiveMinutesFromNow := now + 5 * 60 * 1000 in
      ret (expiry <=? fiveMinutesFromNow)
  end.

Definition refreshAccessToken (ext : External) (userId refresh_token : string)
  : M string :=
  try_catch
    (credentials <- oauth_refreshAccessToken ext refresh_token ;;
     let newAccessToken := present (fst credentials) in
     let newRefreshToken := present (snd credentials) in
     match newAccessToken with
     | None => throw (Error "No access token received from refresh")
     | Some token =>
         now <- date_now ext ;;
         let expiry := now + 3600 * 1000 in
         accessKey_update userId toolId
           (fun _ => {| accessToken := token;
                        refreshToken := Some (default refresh_token newRefreshToken);
                        expiryDate := expiry |}) ;;;
         ret token
     end)
    (fun error => throw (Error ("Token refresh failed: " +:+ err_message error))).

(** The encoded message: the lines joined by a newline, then base64url. *)
Definition rawEmail (ext : External) (to subj text : string) : string :=
  let emailLines :=
    ["To: " +:+ to; "Subject: " +:+ subj;
     "Content-Type: text/plain; charset=utf-8"; ""; text] in
  encode_raw ext (Js.join (String (Ascii.ascii_of_nat 10) "") emailLines).

(** The argument of [gmail.users.messages.send]. *)
Definition send_request (raw : string) : JValue :=
  JObj [("userId", JStr "me"); ("requestBody", JObj [("raw", JStr raw)])].

Definition sendEmail (ext : External) (access_token : string)
    (toMail subject body : JValue) : M JValue :=
  to <- interp toMail ;;
  subj <- interp subject ;;
  text <- interp body ;;
  provider_call ext toolId access_token (send_request (rawEmail ext to subj text)).

(** [error.code === 401 || error.code === 403 || (error.message && (...))]. *)
Definition isAuthError (error : JsError) : bool :=
  Js.is_num (err_code error) 401
  || Js.is_num (err_code error) 403
  || (negb (String.eqb (err_message error) "")
      && (Js.includes (err_message error) "invalid_client"
          || Js.includes (err_message error) "invalid_grant"
          || Js.includes (err_message error) "unauthorized"
          || Js.includes (err_message error) "forbidden")).

Definition sent_text (toMail : JValue) (after_refresh : string) (res : JValue)
  : M JValue :=
  to <- interp toMail ;;
  id <- read res "id" ;;
  id <- interp id ;;
  ret (tool_text ("✅ Email sent to " +:+ to +:+ after_refresh
                  +:+ ". Gmail Message ID: " +:+ id)).

(** The block of [handler] that checks the token before using it and
    refreshes it when it is stale or missing. *)
Definition proactive_refresh (ext : External) (user refresh_token : string)
    (row : AccessKey) : M (Step string) :=
  let tokenExpiryDate := Some (expiryDate row) in
  stale <- (s <- shouldRefreshToken ext tokenExpiryDate ;;
            ret (s || String.eqb (accessToken row) "")) ;;
  if stale then
    try_catch
      (token <- refreshAccessToken ext user refresh_token ;;
       ret (Next token))
      (fun error =>
         ret (Return (tool_error
           ("❌ Failed to refresh token: " +:+ err_message error
            +:+ ". Please re-authenticate Gmail."))))
  else ret (Next (accessToken row)).

(** The block of [handler] that sends the email and, in its catch clause,
    refreshes the token and retries ([refreshToken] is truthy there, so
    [isAuthError && refreshToken] is [isAuthError]). *)
Definition send_with_retry (ext : External) (user refresh_token access_token : string)
    (toMail subject body : JValue) : M JValue :=
  try_catch
    (res <- sendEmail ext access_token toMail subject body ;;
     sent_text toMail "" res)
    (fun error =>
       if isAuthError error then
         try_catch
           (newAccessToken <- refreshAccessToken ext user refresh_token ;;
            res <- sendEmail ext newAccessToken toMail subject body ;;
            sent_text toMail " after token refresh" res)
           (fun refreshError =>
              ret (tool_error
                ("❌ Authentication failed and token refresh unsuccessful: "
                 +:+ err_message refreshError
                 +:+ ". Please re-authenticate Gmail.")))
       else
         ret (tool_error ("❌ Failed to send email: " +:+ err_message error))).

Definition handler (ext : External) (args userId : JValue) : M JValue :=
  toMail <- read args "toMail" ;;
  subject <- read args "subject" ;;
  body <- read args "body" ;;
  if negb (Js.truthy toMail) || negb (Js.truthy subject)
     || negb (Js.truthy body) || negb (Js.truthy userId) then
    ret (tool_error
           "❌ Missing required parameters: toMail, subject, body, or userId.")
  else if negb (google_oauth_configured ext) then
    ret (tool_error
           "❌ Server configuration error: Google OAuth credentials not set.")
  else
    user <- key_string userId ;;
    accessKey <- accessKey_findUnique user toolId ;;
    match accessKey, optional_refreshToken accessKey with
    | Some row, Some refresh_token =>
        fresh <- proactive_refresh ext user refresh_token row ;;
        match fresh with
        | Return result => ret result
        | Next access_token =>
            send_with_retry ext user refresh_token access_token toMail subject body
        end
    | _, _ =>
        ret (tool_error
               "❌ No refresh token found. Please authenticate Gmail first.")
    end.

End GmailSender.

(** ** GMAIL_SENDER without token refresh (toolsFolder/GMAIL_SENDER.ts) *)

Module GmailSenderBasic.

Definition toolId : string := "GMAIL_SENDER".

(** [accessKey?.accessToken], when truthy. *)
Definition optional_accessToken (accessKey : option AccessKey) : option string :=
  match accessKey with
  | Some row => present (Some (accessToken row))
  | None => None
  end.

Definition handler (ext : External) (args userId : JValue) : M JValue :=
  toMail <- read args "toMail" ;;
  subject <- read args "subject" ;;
  body <- read args "body" ;;
  if negb (Js.truthy toMail) || negb (Js.truthy subject)
     || negb (Js.truthy body) || negb (Js.truthy userId) then
    ret (tool_error
           "❌ Missing required parameters: toMail, subject, body, or userId.")
  else
    user <- key_string userId ;;
    accessKey <- accessKey_findUnique user toolId ;;
    match optional_accessToken accessKey with
    | None =>
        ret (tool_error
               "❌ No access token found. Please authenticate Gmail first.")
    | Some access_token =>
        to <- interp toMail ;;
        subj <- interp subject ;;
        text <- interp body ;;
        let rawEmail := GmailSender.rawEmail ext to subj text in
        try_catch
          (res <- provider_call ext toolId access_token
                    (GmailSender.send_request rawEmail) ;;
           GmailSender.sent_text toMail "" res)
          (fun error =>
             ret (tool_error ("❌ Failed to send email: " +:+ err_message error)))
    end.

End GmailSenderBasic.

(** ** CALENDAR_EVENT_CREATOR *)

Module CalendarEventCreator.

Definition toolId : string := "CALENDAR_EVENT_CREATOR".

(** The destructured arguments, defaults applied. *)
Record Params : Type := mkParams {
  title : JValue;
  description : JValue;
  startDateTime : JValue;
  endDateTime : JValue;
  timeZone : JValue;
  attendees : JValue;
  location : JValue;
  reminderMinutes : JValue;
  createMeetLink : JValue;
  visibility : JValue;
  calendarId : JValue
}.

(** A destructuring default applies to [undefined] only. *)
Definition or_default (v dflt : JValue) : JValue :=
  match v with
  | JUndefined => dflt
  | _ => v
  end.

Definition destructure (args : JValue) : option Params :=
  title ← Js.get_prop args "title";
  description ← Js.get_prop args "description";
  startDateTime ← Js.get_prop args "startDateTime";
  endDateTime ← Js.get_prop args "endDateTime";
  timeZone ← Js.get_prop args "timeZone";
  attendees ← Js.get_prop args "attendees";
  location ← Js.get_prop args "location";
  reminderMinutes ← Js.get_prop args "reminderMinutes";
  createMeetLink ← Js.get_prop args "createMeetLink";
  visibility ← Js.get_prop args "visibility";
  calendarId ← Js.get_prop args "calendarId";
  Some {| title := title;
          description := description;
          startDateTime := startDateTime;
          endDateTime := endDateTime;
          timeZone := or_default timeZone (JStr "UTC");
          attendees := or_default attendees (JArr []);
          location := location;
          reminderMinutes := or_default reminderMinutes (JArr [JNum 15]);
          createMeetLink := or_default createMeetLink (JBool false);
          visibility := or_default visibility (JStr "default");
          calendarId := or_default calendarId (JStr "primary") |}.

(** [v.map(f)]. *)
Definition array_map (f : JValue -> JValue) (v : JValue) : M JValue :=
  match v with
  | JArr xs => ret (JArr (f <$> xs))
  | JUndefined | JNull => throw TypeError_read
  | _ => throw (Error "map is not a function")
  end.

(** [v.length > 0]. *)
Definition has_elements (ext : External) (v : JValue) : M bool :=
  match v with
  | JArr [] => ret false
  | JArr (_ :: _) => ret true
  | JStr s => ret (negb (String.eqb s ""))
  | JUndefined | JNull => throw TypeError_read
  | JObj fs =>
      ret (match Js.lookup_field "length" fs with
           | Some (JNum n) => 0 <? n
           | Some v => is_positive ext v
           | None => false
           end)
  | JBool _ | JNum _ => ret false
  end.

(** [`meet-${Date.now()}-${Math.random().toString(36).substr(2, 9)}`]. *)
Definition requestId (ext : External) : M string :=
  fun w =>
    bind (date_now ext)
      (fun now =>
         ret ("meet-" +:+ Js.Z_to_string now +:+ "-"
              +:+ random_id ext (count is_now (trace w)))) w.

Definition eventResource (ext : External) (p : Params) : M JValue :=
  overrides <-
    array_map (fun minutes => JObj [("method", JStr "popup"); ("minutes", minutes)])
      (reminderMinutes p) ;;
  let resource :=
    [("summary", title p);
     ("description", Js.or_else (description p) JUndefined);
     ("location", Js.or_else (location p) JUndefined);
     ("start", JObj [("dateTime", startDateTime p); ("timeZone", timeZone p)]);
     ("end", JObj [("dateTime", endDateTime p); ("timeZone", timeZone p)]);
     ("visibility", visibility p);
     ("reminders", JObj [("useDefault", JBool false); ("overrides", overrides)])] in
  invited <- has_elements ext (attendees p) ;;
  resource <-
    (if invited then
       emails <- array_map (fun email => JObj [("email", email)]) (attendees p) ;;
       ret (Js.obj_set "attendees" emails resource)
     else ret resource) ;;
  resource <-
    (if Js.truthy (createMeetLink p) then
       id <- requestId ext ;;
       ret (Js.obj_set "conferenceData"
              (JObj [("createRequest",
                      JObj [("requestId", JStr id);
                            ("conferenceSolutionKey",
                             JObj [("type", JStr "hangoutsMeet")])])])
              resource)
     else ret resource) ;;
  ret (JObj resource).

(** The argument of [calendar.events.insert]. *)
Definition insert_request (p : Params) (resource : JValue) (invited : bool)
  : JValue :=
  JObj [("calendarId", calendarId p);
        ("requestBody", resource);
        ("conferenceDataVersion",
         if Js.truthy (createMeetLink p) then JNum 1 else JUndefined);
        ("sendUpdates", JStr (if invited then "all" else "none"))].

(** Builds the event and calls [calendar.events.insert]. *)
Definition insert_event (ext : External) (access_token : string) (p : Params)
  : M JValue :=
  resource <- eventResource ext p ;;
  invited <- has_elements ext (attendees p) ;;
  provider_call ext toolId access_token (insert_request p resource invited).

Definition created_text (ext : External) (headline : string) (event : JValue)
    (p : Params) : M JValue :=
  details <- lift_opt TypeError_primitive (render_event ext event (attendees p)) ;;
  ret (tool_text (headline +:+ details)).

(** [error.code === 401 || (error.message && error.message.includes("invalid_grant"))]. *)
Definition isTokenError (error : JsError) : bool :=
  Js.is_num (err_code error) 401
  || (negb (String.eqb (err_message error) "")
      && Js.includes (err_message error) "invalid_grant").

(** [accessKey?.accessToken], the string of the stored row. *)
Definition optional_accessToken (accessKey : option AccessKey) : option string :=
  accessToken <$> accessKey.

(** The block of [handler] that inserts the event and, in its catch
    clause, refreshes the token and retries. *)
Definition insert_with_retry (ext : External) (user : string)
    (stored_refresh : option string) (access_token : string) (p : Params)
  : M JValue :=
  try_catch
    (event <- insert_event ext access_token p ;;
     created_text ext "âœ… Calendar event created successfully!" event p)
    (fun error =>
       if isTokenError error then
         match stored_refresh with
         | None =>
             ret (tool_error
                    "âŒ Access token expired and no refresh token found. Please re-authenticate Google Calendar.")
         | Some refresh_token =>
             try_catch
               (credentials <- oauth_refreshAccessToken ext refresh_token ;;
                let newRefreshToken := present (snd credentials) in
                match present (fst credentials) with
                | None =>
                    throw (Error "Failed to get new access token during refresh.")
                | Some newAccessToken =>
                    accessKey_update user toolId
                      (fun row =>
                         {| accessToken := newAccessToken;
                            refreshToken :=
                              Some (default refresh_token newRefreshToken);
                            expiryDate := expiryDate row |}) ;;;
                    event <- insert_event ext newAccessToken p ;;
                    created_text ext
                      "âœ… Calendar event created successfully after token refresh!"
                      event p
                end)
               (fun refreshError =>
                  ret (tool_error
                    ("âŒ Failed to refresh token or create event after refresh: "
                     +:+ err_message refreshError
                     +:+ ". Please re-authenticate Google Calendar.")))
         end
       else
         ret (tool_error
                ("âŒ Failed to create calendar event: "
                 +:+ err_message error))).

Definition handler (ext : External) (args userId : JValue) : M JValue :=
  p <- lift_opt TypeError_read (destructure args) ;;
  if negb (Js.truthy (title p)) || negb (Js.truthy (startDateTime p))
     || negb (Js.truthy (endDateTime p)) || negb (Js.truthy userId) then
    ret (tool_error
           "âŒ Missing required parameters: title, startDateTime, endDateTime, or userId.")
  else
    match date_time ext (startDateTime p), date_time ext (endDateTime p) with
    | Some startDate, Some endDate =>
        if endDate <=? startDate then
          ret (tool_error "âŒ Start time must be before end time.")
        else
          user <- key_string userId ;;
          accessKey <- accessKey_findUnique user toolId ;;
          let stored_access := optional_accessToken accessKey in
          let stored_refresh := optional_refreshToken accessKey in
          match present stored_access, stored_refresh with
          | None, None =>
              ret (tool_error
                     "âŒ No access or refresh token found. Please authenticate Google Calendar first.")
          | _, _ =>
              if negb (google_oauth_configured ext) then
                ret (tool_error
                       "âŒ Server configuration error: Google OAuth credentials not set.")
              else
                insert_with_retry ext user stored_refresh
                  (default "" stored_access) p
          end
    | _, _ =>
        ret (tool_error
               "âŒ Invalid date format. Please use ISO format (e.g., '2024-06-15T10:00:00').")
    end.

End CalendarEventCreator.

(** ** The SSE endpoints (routes.ts) *)

Module Sse.

(** The exchanges of the two endpoints, in arrival order. A connection is
    named by the response stream of its [GET /sse]. *)
Inductive Exchange : Type :=
| GetSse (res : nat)
| PostMessages (req : JValue).

(** What the route handler does with an exchange. *)
Inductive Outcome : Type :=
| Connected (res : nat)                (* server.connect(transport) *)
| Handled (res : nat) (req : JValue)   (* transport.handlePostMessage(req, ...) *)
| NoConnection.                        (* 400, "No SSE connection established" *)

(** The module variable [transport]: [null], or the transport made for
    the stream of a connection. *)
Definition Transport : Type := option nat.

Definition exchange (transport : Transport) (x : Exchange) : Outcome * Transport :=
  match x with
  | GetSse res => (Connected res, Some res)
  | PostMessages req =>
      match transport with
      | Some res => (Handled res req, transport)
      | None => (NoConnection, transport)
      end
  end.

Fixpoint serve (transport : Transport) (xs : list Exchange) : list Outcome :=
  match xs with
  | [] => []
  | x :: rest =>
      let (outcome, transport') := exchange transport x in
      outcome :: serve transport' rest
  end.

End Sse.

(** ** Loading the tool modules (toolRegistry.ts) *)

(** [s.endsWith(suffix)]. *)
Definition ends_with (s suffix : string) : bool :=
  let n := String.length s in
  let m := String.length suffix in
  (m <=? n)%nat && String.eqb (String.substring (n - m) m s) suffix.

(** The exports [tool] and [handler] of a module: [export_tool] is [None]
    when [tool] is [undefined] or [null], [export_handler] is [None] when
    [typeof handler] is not ["function"]. *)
Record ToolModule : Type := mkToolModule {
  export_tool : option Tool;
  export_handler : option Handler
}.

(** The directory [toolsFolder]: what [fs.readdir] and [import] settle to. *)
Record ToolsDir : Type := mkToolsDir {
  readdir : Result (list string);
  import : string -> Result ToolModule
}.

(** [tools.push(tool); toolHandlers[tool.name] = handler]. *)
Definition register (tool : Tool) (handler : Handler) (reg : Registry) : Registry :=
  {| tools := tools reg ++ [tool];
     toolHandlers := fun key =>
       if String.eqb key (name tool) then Some handler else toolHandlers reg key |}.

(** The [for (const file of files)] loop over the registry. *)
Fixpoint load_files (dir : ToolsDir) (files : list string) (reg : Registry)
  : Result unit * Registry :=
  match files with
  | [] => (Ok tt, reg)
  | file :: rest =>
      if negb (ends_with file ".ts") && negb (ends_with file ".js") then
        load_files dir rest reg
      else
        match import dir file with
        | Thrown e => (Thrown e, reg)
        | Ok exports =>
            match export_tool exports, export_handler exports with
            | Some tool, Some handler =>
                if String.eqb (name tool) "" then
                  load_files dir rest reg
                else
                  load_files dir rest (register tool handler reg)
            | _, _ => load_files dir rest reg
            end
        end
  end.

Definition loadAllTools (dir : ToolsDir) (reg : Registry) : Result unit * Registry :=
  match readdir dir with
  | Ok files => load_files dir files reg
  | Thrown e => (Thrown e, reg)
  end.

(** ** The first Gmail sender (handleToolCall.ts, before the registry) *)

Module Legacy.

Definition handleGmailSender (ext : External) (args : JValue) : M JValue :=
  toMail <- read args "toMail" ;;
  subject <- read args "subject" ;;
  body <- read args "body" ;;
  let accessToken := "" in
  if negb (Js.truthy toMail) || negb (Js.truthy subject)
     || negb (Js.truthy body) || negb (Js.truthy (JStr accessToken)) then
    ret (tool_text
           "❌ Missing required parameters: toMail, subject, body, or accessToken.")
  else
    to <- interp toMail ;;
    subj <- interp subject ;;
    text <- interp body ;;
    let encodedMessage := GmailSender.rawEmail ext to subj text in
    try_catch
      (res <- provider_call ext "Gmail_Sender" accessToken
                (GmailSender.send_request encodedMessage) ;;
       id <- read res "id" ;;
       id <- interp id ;;
       ret (tool_text ("✅ Email sent successfully to " +:+ to
                       +:+ ". Gmail Message ID: " +:+ id)))
      (fun error =>
         ret (tool_text ("❌ Failed to send email: " +:+ err_message error))).

End Legacy.

(** ** manage_artifact (toolsFolder/artifact.ts) *)

Module Artifact.

(** A stored artifact. The fields taken from the arguments hold whatever
    value the caller passed; the two dates are time values. *)
Record Artifact : Type := mkArtifact {
  id : string;
  title : JValue;
  type : JValue;
  language : JValue;
  content : JValue;
  createdAt : Z;
  updatedAt : Z;
  userId : option string
}.

(** The module state: the [artifacts] Map, in insertion order, and the
    number of clock readings and random draws made so far. *)
Record State : Type := mkState {
  artifacts : list (string * Artifact);
  clock_reads : nat;
  random_draws : nat
}.

(** What printing needs from the runtime. *)
Record Rendering : Type := mkRendering {
  (** [new Date(t).toISOString()]. *)
  toISOString : Z -> string;
  (** [`${c.slice(0, 200)}${c.length > 200 ? '...' : ''}`], or the
      TypeError it throws. *)
  preview : JValue -> Result string
}.

(** [Map.prototype.get] on a Map whose keys are strings: keys are compared
    by value, so that only a string finds an entry. *)
Fixpoint lookup (k : string) (m : list (string * Artifact)) : option Artifact :=
  match m with
  | [] => None
  | (k', a) :: rest => if String.eqb k k' then Some a else lookup k rest
  end.

Definition get (key : JValue) (m : list (string * Artifact)) : option Artifact :=
  match key with
  | JStr k => lookup k m
  | _ => None
  end.

(** The string that a key which finds an entry is. *)
Definition key (id : JValue) : string :=
  match id with
  | JStr k => k
  | _ => ""
  end.

(** [Map.prototype.set]: an existing key keeps its place. *)
Fixpoint set (k : string) (a : Artifact) (m : list (string * Artifact))
  : list (string * Artifact) :=
  match m with
  | [] => [(k, a)]
  | (k', a') :: rest =>
      if String.eqb k k' then (k, a) :: rest else (k', a') :: set k a rest
  end.

(** [Map.prototype.delete]. *)
Fixpoint delete (k : string) (m : list (string * Artifact))
  : list (string * Artifact) :=
  match m with
  | [] => []
  | (k', a') :: rest =>
      if String.eqb k k' then rest else (k', a') :: delete k rest
  end.

Definition nl : string := String (Ascii.ascii_of_nat 10) "".

(** [userId ? `[User: ${userId}] ` : ""]. *)
Definition userPrefix (userId : option string) : string :=
  match present userId with
  | Some u => "[User: " +:+ u +:+ "] "
  | None => ""
  end.

(** Evaluation of a template literal: the first interpolation that throws
    ends it. *)
Definition then_ {A B} (r : Result A) (k : A -> Result B) : Result B :=
  match r with
  | Ok a => k a
  | Thrown e => Thrown e
  end.

Definition print (v : JValue) : Result string :=
  match Js.to_string v with
  | Some s => Ok s
  | None => Thrown TypeError_primitive
  end.

(** [userId && artifact.userId && artifact.userId !== userId]. *)
Definition denied (userId : option string) (artifact : Artifact) : bool :=
  match present userId, present (Artifact.userId artifact) with
  | Some u, Some owner => negb (String.eqb owner u)
  | _, _ => false
  end.

(** [!userId || !artifact.userId || artifact.userId === userId]. *)
Definition visible (userId : option string) (artifact : Artifact) : bool :=
  match present userId, present (Artifact.userId artifact) with
  | Some u, Some owner => String.eqb owner u
  | _, _ => true
  end.

(** [xs.sort((a, b) => b.updatedAt.getTime() - a.updatedAt.getTime())]:
    the sort is stable, latest update first. *)
Fixpoint insert (a : Artifact) (sorted : list Artifact) : list Artifact :=
  match sorted with
  | [] => [a]
  | b :: rest =>
      if updatedAt b <=? updatedAt a then a :: b :: rest else b :: insert a rest
  end.

Fixpoint sort (xs : list Artifact) : list Artifact :=
  match xs with
  | [] => []
  | a :: rest => insert a (sort rest)
  end.

(** The array [userArtifacts] of the list action. *)
Definition userArtifacts (userId : option string) (st : State) : list Artifact :=
  sort (filter (fun a => visible userId a = true) (artifacts st).*2).

(** [`artifact_${Date.now()}_${Math.random().toString(36).substr(2, 9)}`]. *)
Definition artifactId (ext : External) (st : State) : string :=
  "artifact_" +:+ Js.Z_to_string (clock ext (clock_reads st)) +:+ "_"
  +:+ random_id ext (random_draws st).

Definition created_text (rnd : Rendering) (prefix : string) (a : Artifact)
  : Result string :=
  then_ (print (title a)) (fun title =>
  then_ (print (type a)) (fun type =>
  then_ (print (Js.or_else (language a) (JStr "N/A"))) (fun lang =>
  then_ (print (Js.or_else (language a) (JStr ""))) (fun fence =>
  then_ (preview rnd (content a)) (fun shown =>
  Ok (prefix +:+ "✅ Artifact created successfully!" +:+ nl +:+ nl
      +:+ "**ID:** " +:+ id a +:+ nl
      +:+ "**Title:** " +:+ title +:+ nl
      +:+ "**Type:** " +:+ type +:+ nl
      +:+ "**Language:** " +:+ lang +:+ nl
      +:+ "**Created:** " +:+ toISOString rnd (createdAt a) +:+ nl +:+ nl
      +:+ "**Content Preview:**" +:+ nl +:+ "```" +:+ fence +:+ nl
      +:+ shown +:+ nl +:+ "```")))))).

Definition updated_text (rnd : Rendering) (prefix : string) (key : JValue)
    (a : Artifact) : Result string :=
  then_ (print key) (fun key =>
  then_ (print (title a)) (fun title =>
  then_ (print (type a)) (fun type =>
  then_ (print (Js.or_else (language a) (JStr ""))) (fun fence =>
  then_ (preview rnd (content a)) (fun shown =>
  Ok (prefix +:+ "✅ Artifact updated successfully!" +:+ nl +:+ nl
      +:+ "**ID:** " +:+ key +:+ nl
      +:+ "**Title:** " +:+ title +:+ nl
      +:+ "**Type:** " +:+ type +:+ nl
      +:+ "**Last Updated:** " +:+ toISOString rnd (updatedAt a) +:+ nl +:+ nl
      +:+ "**Updated Content Preview:**" +:+ nl +:+ "```" +:+ fence +:+ nl
      +:+ shown +:+ nl +:+ "```")))))).

Definition details_text (rnd : Rendering) (prefix : string) (a : Artifact)
  : Result string :=
  then_ (print (title a)) (fun title =>
  then_ (print (type a)) (fun type =>
  then_ (print (Js.or_else (language a) (JStr "N/A"))) (fun lang =>
  then_ (print (Js.or_else (language a) (JStr ""))) (fun fence =>
  then_ (print (content a)) (fun full =>
  Ok (prefix +:+ "📄 **Artifact Details**" +:+ nl +:+ nl
      +:+ "**ID:** " +:+ id a +:+ nl
      +:+ "**Title:** " +:+ title +:+ nl
      +:+ "**Type:** " +:+ type +:+ nl
      +:+ "**Language:** " +:+ lang +:+ nl
      +:+ "**Created:** " +:+ toISOString rnd (createdAt a) +:+ nl
      +:+ "**Updated:** " +:+ toISOString rnd (updatedAt a) +:+ nl
      +:+ "**Owner:** " +:+ default "Anonymous" (present (userId a)) +:+ nl +:+ nl
      +:+ "**Full Content:**" +:+ nl +:+ "```" +:+ fence +:+ nl
      +:+ full +:+ nl +:+ "```")))))).

Definition deleted_text (prefix : string) (key : JValue) (a : Artifact)
  : Result string :=
  then_ (print (title a)) (fun title =>
  then_ (print key) (fun key =>
  Ok (prefix +:+ "🗑️ Artifact '" +:+ title +:+ "' (" +:+ key
      +:+ ") deleted successfully!"))).

Definition not_found_text (prefix : string) (key : JValue) : Result string :=
  then_ (print key) (fun key =>
  Ok (prefix +:+ "Error: Artifact with ID '" +:+ key +:+ "' not found")).

(** One line of the list. *)
Definition item_text (rnd : Rendering) (a : Artifact) : Result string :=
  then_ (print (title a)) (fun title =>
  then_ (print (type a)) (fun type =>
  then_ (if Js.truthy (language a)
         then then_ (print (language a)) (fun l => Ok (" (" +:+ l +:+ ")"))
         else Ok "") (fun lang =>
  Ok ("• **" +:+ title +:+ "** (" +:+ id a +:+ ")" +:+ nl
      +:+ "  Type: " +:+ type +:+ lang +:+ nl
      +:+ "  Updated: " +:+ toISOString rnd (updatedAt a) +:+ nl)))).

(** [xs.map(item)]: the first item that throws ends the loop. *)
Fixpoint items_text (rnd : Rendering) (xs : list Artifact) : Result (list string) :=
  match xs with
  | [] => Ok []
  | a :: rest =>
      then_ (item_text rnd a) (fun line =>
      then_ (items_text rnd rest) (fun lines => Ok (line :: lines)))
  end.

Definition list_text (rnd : Rendering) (prefix : string) (xs : list Artifact)
  : Result string :=
  match xs with
  | [] => Ok (prefix +:+ "📋 No artifacts found.")
  | _ :: _ =>
      then_ (items_text rnd xs) (fun lines =>
      Ok (prefix +:+ "📋 **Your Artifacts** (" +:+ Js.nat_to_string (length xs)
          +:+ " total)" +:+ nl +:+ nl +:+ Js.join nl lines))
  end.

Definition unknown_action_text (prefix : string) (action : JValue) : Result string :=
  then_ (print action) (fun action =>
  Ok (prefix +:+ "Error: Unknown action '" +:+ action
      +:+ "'. Available actions: create, update, get, delete, list")).

(** The [return] of a case, inside [try { } catch (error) { }]: a text that
    cannot be printed becomes the text of the catch clause. The store
    keeps what the case did before. *)
Definition answer (prefix : string) (text : Result string) : JValue :=
  match text with
  | Ok t => tool_text t
  | Thrown e => tool_text (prefix +:+ "Error: " +:+ err_message e)
  end.

(** The artifact after [if (title) artifact.title = title; ...]. *)
Definition updated (a : Artifact) (title type language content : JValue) (now : Z)
  : Artifact :=
  {| id := id a;
     title := if Js.truthy title then title else Artifact.title a;
     type := if Js.truthy type then type else Artifact.type a;
     language := if Js.truthy language then language else Artifact.language a;
     content := if Js.truthy content then content else Artifact.content a;
     createdAt := createdAt a;
     updatedAt := now;
     userId := Artifact.userId a |}.

(** The handler on an arguments object, for a caller given by the query
    string ([None] when there is none). *)
Definition handler (ext : External) (rnd : Rendering) (args : list (string * JValue))
    (userId : option string) (st : State) : JValue * State :=
  let arg k := default JUndefined (Js.lookup_field k args) in
  let action := arg "action" in
  let id := arg "id" in
  let title := arg "title" in
  let type := arg "type" in
  let language := arg "language" in
  let content := arg "content" in
  let prefix := userPrefix userId in
  if Js.is_str action "create" then
    if negb (Js.truthy title) || negb (Js.truthy type) || negb (Js.truthy content) then
      (tool_text (prefix +:+ "Error: Missing required fields for create action. Need: title, type, content"),
       st)
    else
      let artifact :=
        {| Artifact.id := artifactId ext st;
           Artifact.title := title;
           Artifact.type := type;
           Artifact.language := Js.or_else language JUndefined;
           Artifact.content := content;
           createdAt := clock ext (S (clock_reads st));
           updatedAt := clock ext (S (S (clock_reads st)));
           Artifact.userId := userId |} in
      (answer prefix (created_text rnd prefix artifact),
       {| artifacts := set (artifactId ext st) artifact (artifacts st);
          clock_reads := S (S (S (clock_reads st)));
          random_draws := S (random_draws st) |})
  else if Js.is_str action "update" then
    if negb (Js.truthy id) then
      (tool_text (prefix +:+ "Error: Artifact ID is required for update action"), st)
    else
      match get id (artifacts st) with
      | None => (answer prefix (not_found_text prefix id), st)
      | Some artifact =>
          if denied userId artifact then
            (tool_text (prefix +:+ "Error: You don't have permission to update this artifact"),
             st)
          else
            let artifact' :=
              updated artifact title type language content
                (clock ext (clock_reads st)) in
            (answer prefix (updated_text rnd prefix id artifact'),
             {| artifacts := set (key id) artifact' (artifacts st);
                clock_reads := S (clock_reads st);
                random_draws := random_draws st |})
      end
  else if Js.is_str action "get" then
    if negb (Js.truthy id) then
      (tool_text (prefix +:+ "Error: Artifact ID is required for get action"), st)
    else
      match get id (artifacts st) with
      | None => (answer prefix (not_found_text prefix id), st)
      | Some artifact => (answer prefix (details_text rnd prefix artifact), st)
      end
  else if Js.is_str action "delete" then
    if negb (Js.truthy id) then
      (tool_text (prefix +:+ "Error: Artifact ID is required for delete action"), st)
    else
      match get id (artifacts st) with
      | None => (answer prefix (not_found_text prefix id), st)
      | Some artifact =>
          if denied userId artifact then
            (tool_text (prefix +:+ "Error: You don't have permission to delete this artifact"),
             st)
          else
            (answer prefix (deleted_text prefix id artifact),
             {| artifacts := delete (key id) (artifacts st);
                clock_reads := clock_reads st;
                random_draws := random_draws st |})
      end
  else if Js.is_str action "list" then
    (answer prefix (list_text rnd prefix (userArtifacts userId st)), st)
  else
    (answer prefix (unknown_action_text prefix action), st).

End Artifact.

(** ** Vocabulary of the statements *)

(** An own property of a JSON object. *)
Definition field (message : JValue) (k : string) : option JValue :=
  match message with
  | JObj fs => Js.lookup_field k fs
  | _ => None
  end.

(** A Request envelope: marker "2.0", [method] and [id] present. *)
Definition Request (message method id : JValue) : Prop :=
  field message "jsonrpc" = Some (JStr "2.0")
  ∧ field message "method" = Some method
  ∧ field message "id" = Some id.


(** A UserTool row exists for the pair. *)
Definition subscribed (w : World) (U T : string) : Prop :=
  ∃ r, r ∈ userTool w ∧ ut_userId r = U ∧ ut_toolId r = T.

(** The world after the external calls [evs] that change no table. *)
Definition log (w : World) (evs : list Event) : World :=
  {| userTool := userTool w; accessKey := accessKey w; trace := trace w ++ evs |}.

(** A tool result flagged [isError: true]. *)
Definition is_error (result : JValue) : Prop :=
  field result "isError" = Some (JBool true).

(** The case labels of the switch in [Routes.dispatch]. *)
Definition dispatched_methods : list string :=
  ["initialize"; "tools/list"; "tools/call"].

(** The message of the error thrown by the default case. *)
Definition unknown_method_text (method : JValue) : string :=
  match Js.to_string method with
  | Some m => "Method not found: " +:+ m
  | None => err_message TypeError_primitive
  end.

(** The access token a refresh reply carries, when the code accepts it. *)
Definition refreshed (reply : RefreshReply) : option string :=
  match reply with
  | RefreshOk a _ => present a
  | RefreshFail _ => None
  end.

(** The refresh token a refresh reply carries, if the provider issued one. *)
Definition reissued (reply : RefreshReply) : option string :=
  match reply with
  | RefreshOk _ r => present r
  | RefreshFail _ => None
  end.

(** Arguments of GMAIL_SENDER as its input schema declares them. *)
Definition mail_args (args : JValue) (to subj text : string) : Prop :=
  field args "toMail" = Some (JStr to)
  ∧ field args "subject" = Some (JStr subj)
  ∧ field args "body" = Some (JStr text)
  ∧ to ≠ "" ∧ subj ≠ "" ∧ text ≠ "".

(** Arguments CALENDAR_EVENT_CREATOR accepts and turns into an insert
    request, without a Meet link. *)
Definition event_args (ext : External) (args : JValue)
    (p : CalendarEventCreator.Params) : Prop :=
  CalendarEventCreator.destructure args = Some p
  ∧ Js.truthy (CalendarEventCreator.title p) = true
  ∧ Js.truthy (CalendarEventCreator.startDateTime p) = true
  ∧ Js.truthy (CalendarEventCreator.endDateTime p) = true
  ∧ (∃ s e, date_time ext (CalendarEventCreator.startDateTime p) = Some s
            ∧ date_time ext (CalendarEventCreator.endDateTime p) = Some e
            ∧ s < e)
  ∧ (∃ minutes, CalendarEventCreator.reminderMinutes p = JArr minutes)
  ∧ (∃ emails, CalendarEventCreator.attendees p = JArr emails)
  ∧ Js.truthy (CalendarEventCreator.createMeetLink p) = false.



(** A computation only appends to the trace. *)
Definition grows {A} (m : M A) : Prop :=
  ∀ w, ∃ evs, trace (m w).2 = trace w ++ evs.

(** A computation never throws. *)
Definition returns {A} (m : M A) : Prop := ∀ w, ∃ a w', m w = (Ok a, w').

(** Every run of [m] relates the world it starts in to the world it ends
    in. *)
Definition keeps (R : World → World → Prop) {A} (m : M A) : Prop :=
  ∀ w, R w (m w).2.

(** A relation between the world before and after that runs compose:
    it holds of a world and itself, of two runs in sequence, and of any
    calls that only show in the trace. *)
Record Frame (R : World → World → Prop) : Prop := mkFrame {
  frame_refl : ∀ w, R w w;
  frame_trans : ∀ w1 w2 w3, R w1 w2 → R w2 w3 → R w1 w3;
  frame_log : ∀ w evs, R w (log w evs)
}.

(** Both tables are as they were. *)
Definition same_tables (w w' : World) : Prop :=
  userTool w' = userTool w ∧ accessKey w' = accessKey w.

(** No AccessKey row was created or deleted, and none but the row of
    [(userId, tool)] was rewritten; the UserTool table is as it was. *)
Definition own_row_only (tool : string) (userId : JValue) (w w' : World) : Prop :=
  userTool w' = userTool w
  ∧ (∀ k, is_Some (accessKey w' !! k) ↔ is_Some (accessKey w !! k))
  ∧ (∀ k, (∀ u, userId = JStr u → k ≠ (u, tool)) →
          accessKey w' !! k = accessKey w !! k).

(** Every AccessKey row has the expiry it had. *)
Definition same_expiry (w w' : World) : Prop :=
  ∀ k, expiryDate <$> accessKey w' !! k = expiryDate <$> accessKey w !! k.

(** Every run of [m] only appends calls to the trace, at most [providers]
    provider calls and [refreshes] refresh calls among them. *)
Definition within (providers refreshes : nat) {A} (m : M A) : Prop :=
  ∀ w, ∃ evs,
    trace (m w).2 = trace w ++ evs
    ∧ (count is_provider evs ≤ providers)%nat
    ∧ (count is_refresh evs ≤ refreshes)%nat.

(** The answers of the JSON-RPC endpoint: an empty 204, a result, or an
    error object with one of the status and code pairs in use. *)
Definition rpc_answer (r : Response) : Prop :=
  r = no_content
  ∨ (∃ result id, r = json 200 (rpc_result result id))
  ∨ (∃ s code message id,
       r = json s (rpc_error code message id)
       ∧ (s, code) ∈ [(400, -32600); (400, -32602); (400, -32700); (500, -32603)]).

(** [s] occurs in [text]. *)
Definition occurs_in (s text : string) : Prop :=
  ∃ before after, text = before +:+ s +:+ after.

(** The streams of the connections opened by a sequence of exchanges. *)
Definition connections (xs : list Sse.Exchange) : list nat :=
  omap (fun x => match x with
                 | Sse.GetSse res => Some res
                 | Sse.PostMessages _ => None
                 end) xs.

(** The modules the loader accepts from a list of file names: a source
    file whose import settles to a named tool and a function. *)
Definition accepted (dir : ToolsDir) (file : string) : option (Tool * Handler) :=
  if ends_with file ".ts" || ends_with file ".js" then
    match import dir file with
    | Ok exports =>
        match export_tool exports, export_handler exports with
        | Some tool, Some handler =>
            if String.eqb (name tool) "" then None else Some (tool, handler)
        | _, _ => None
        end
    | Thrown _ => None
    end
  else None.

(** Every listed tool has a handler under its name. *)
Definition all_handled (reg : Registry) : Prop :=
  ∀ t, t ∈ tools reg → is_Some (toolHandlers reg (name t)).

(** A tool result: one text item, flagged as an error or not. *)
Definition tool_result (r : JValue) : Prop :=
  ∃ text, r = tool_text text ∨ r = tool_error text.

(** Whatever [m] returns satisfies [P]. *)
Definition yields {A} (P : A → Prop) (m : M A) : Prop :=
  ∀ w a w', m w = (Ok a, w') → P a.

(** The artifacts Map is well filed: no key twice, and each artifact under
    its own id. *)
Definition well_filed (st : Artifact.State) : Prop :=
  NoDup (Artifact.artifacts st).*1
  ∧ ∀ k a, (k, a) ∈ Artifact.artifacts st → Artifact.id a = k.

(** Latest update first. *)
Fixpoint descending (xs : list Artifact.Artifact) : Prop :=
  match xs with
  | [] => True
  | a :: rest =>
      Forall (λ b, Artifact.updatedAt b ≤ Artifact.updatedAt a) rest ∧ descending rest
  end.

(** The caller may see, change and delete the artifact: there is no caller,
    or no owner, or the caller is the owner. *)
Definition permitted (caller : option string) (a : Artifact.Artifact) : Prop :=
  present caller = None ∨ present (Artifact.userId a) = None
  ∨ present (Artifact.userId a) = present caller.

(** ** A small deployment, used to exercise the statements *)

Module Demo.

Definition get_time : Handler :=
  fun _ userId => ret (tool_text "Current time: 10:00").

Definition reg : Registry :=
  {| tools := [mkTool "get_time" "Get current time" (JObj []);
               mkTool "calculate" "Perform basic math calculations" (JObj [])];
     toolHandlers := fun key =>
       if String.eqb key "get_time" then Some get_time else None |}.

Definition stored : AccessKey :=
  {| accessToken := "old-token"; refreshToken := Some "refresh-0";
     expiryDate := 5000000 |}.

Definition world : World :=
  {| userTool := [mkUserTool "u1" "get_time" false;
                  mkUserTool "u2" "calculate" true];
     accessKey := <[("u1", "GMAIL_SENDER") := stored]>
                    (<[("u1", "CALENDAR_EVENT_CREATOR") := stored]> ∅);
     trace := [] |}.

Definition call (tool : string) (arguments : JValue) : JValue :=
  JObj [("jsonrpc", JStr "2.0"); ("method", JStr "tools/call"); ("id", JNum 7);
        ("params", JObj [("name", JStr tool); ("arguments", arguments)])].

Definition list_tools : JValue :=
  JObj [("jsonrpc", JStr "2.0"); ("method", JStr "tools/list"); ("id", JNum 8)].


Definition ping : JValue :=
  JObj [("jsonrpc", JStr "2.0"); ("method", JStr "ping"); ("id", JNum 0)].

Definition unauthorized : JsError :=
  {| err_code := JNum 401; err_message := "Invalid Credentials" |}.

(** The clock stands at 1000000 ms; dates are the two of the schema's
    examples. *)
Definition ext (oauth : nat -> RefreshReply) (provider : nat -> ProviderReply)
  : External :=
  {| process_env := fun _ => Some "configured";
     oauth_reply := oauth;
     provider_reply := provider;
     clock := fun _ => 1000000;
     date_time := fun v =>
       if Js.is_str v "2024-06-15T10:00:00" then Some 1718445600000
       else if Js.is_str v "2024-06-15T11:00:00" then Some 1718449200000
       else None;
     is_positive := fun _ => false;
     encode_raw := fun s => s;
     random_id := fun _ => "k3x9q";
     render_event := fun _ _ => Some "" |}.

(** The first provider call is refused with a 401, later ones succeed. *)
Definition refused_once (k : nat) : ProviderReply :=
  match k with
  | O => ProviderFail unauthorized
  | S _ => ProviderOk (JObj [("id", JStr "m-1")])
  end.

Definition refresh_ok : External :=
  ext (fun _ => RefreshOk (Some "new-token") None) refused_once.


Definition mail : JValue :=
  JObj [("toMail", JStr "a@example.org"); ("subject", JStr "hello");
        ("body", JStr "see you")].

Definition meeting : JValue :=
  JObj [("title", JStr "sync");
        ("startDateTime", JStr "2024-06-15T10:00:00");
        ("endDateTime", JStr "2024-06-15T11:00:00")].

Definition no_method : JValue :=
  JObj [("jsonrpc", JStr "2.0"); ("id", JNum 0)].

Definition no_params : JValue :=
  JObj [("jsonrpc", JStr "2.0"); ("method", JStr "tools/call"); ("id", JNum 9)].

Definition forbidden : JsError :=
  {| err_code := JNum 403; err_message := "Forbidden" |}.

(** The provider accepts every call. *)
Definition accepting : External :=
  ext (fun _ => RefreshOk (Some "new-token") None)
    (fun _ => ProviderOk (JObj [("id", JStr "m-1")])).

(** The provider refuses every call with a 403. *)
Definition refusing : External :=
  ext (fun _ => RefreshOk (Some "new-token") None) (fun _ => ProviderFail forbidden).

(** A recipient that cannot be printed. *)
Definition unprintable_mail : list (string * JValue) :=
  [("toMail", JObj [("toString", JNum 1)]); ("subject", JStr "hello");
   ("body", JStr "see you")].

(** The subscriptions of [world] with the [authorized] flags flipped. *)
Definition flipped : World :=
  {| userTool := [mkUserTool "u1" "get_time" true;
                  mkUserTool "u2" "calculate" false];
     accessKey := accessKey world;
     trace := [] |}.

Definition empty_registry : Registry :=
  {| tools := []; toolHandlers := fun _ => None |}.

Definition get_time_module : ToolModule :=
  {| export_tool := Some (mkTool "get_time" "Get current time" (JObj []));
     export_handler := Some get_time |}.

Definition import_tool (file : string) : Result ToolModule :=
  if String.eqb file "get_time.ts" then Ok get_time_module
  else Thrown (Error "Cannot find module").

Definition tools_dir : ToolsDir :=
  {| readdir := Ok ["get_time.ts"; "README.md"]; import := import_tool |}.

Definition broken_dir : ToolsDir :=
  {| readdir := Ok ["get_time.ts"; "broken.js"; "later.ts"];
     import := import_tool |}.

Definition rendering : Artifact.Rendering :=
  {| Artifact.toISOString := Js.Z_to_string; Artifact.preview := Artifact.print |}.

Definition note : Artifact.Artifact :=
  {| Artifact.id := "artifact_1";
     Artifact.title := JStr "notes";
     Artifact.type := JStr "markdown";
     Artifact.language := JUndefined;
     Artifact.content := JStr "remember the milk";
     Artifact.createdAt := 10;
     Artifact.updatedAt := 20;
     Artifact.userId := Some "u2" |}.

Definition shelf : Artifact.State :=
  {| Artifact.artifacts := [("artifact_1", note)];
     Artifact.clock_reads := 0;
     Artifact.random_draws := 0 |}.

Definition act (action : string) (id : string) : list (string * JValue) :=
  [("action", JStr action); ("id", JStr id)].

Definition new_note : list (string * JValue) :=
  [("action", JStr "create"); ("title", JStr "todo"); ("type", JStr "markdown");
   ("content", JStr "buy bread")].

End Demo.

(** * Properties *)

(** ** Objects and envelopes *)

Lemma field_get_prop m k v : field m k = Some v → Js.get_prop m k = Some v.
Proof. destruct m; try discriminate. simpl. intros ->. reflexivity. Qed.

Lemma field_has_prop m k v : field m k = Some v → Js.has_prop k m = Some true.
Proof. destruct m; try discriminate. simpl. intros ->. reflexivity. Qed.


Lemma lookup_obj_set_eq k v fs : Js.lookup_field k (Js.obj_set k v fs) = Some v.
Proof.
  induction fs as [|[k' v'] fs IH]; simpl.
  - rewrite String.eqb_refl. reflexivity.
  - destruct (String.eqb k k') eqn:E; simpl; rewrite ?String.eqb_refl, ?E; auto.
Qed.

Lemma is_str_false method lit :
  (∀ s, method = JStr s → s ≠ lit) → Js.is_str method lit = false.
Proof.
  intros H. destruct method; try reflexivity. simpl.
  apply String.eqb_neq. apply H. reflexivity.
Qed.

Lemma is_error_tool_error text : is_error (tool_error text).
Proof. reflexivity. Qed.

Lemma denied_not_implemented_differ T : access_denied_text T ≠ not_implemented_text T.
Proof.
  unfold access_denied_text, not_implemented_text. cbn. intros H.
  repeat (injection H as _ H). discriminate.
Qed.

(** ** The authorization gate and the dispatcher *)

Section Dispatch.

Context (reg : Registry).

#[local] Arguments array_includes : simpl never.
#[local] Arguments String.append : simpl never.
#[local] Arguments tool_error : simpl never.

(** [allowedTools.includes(name)] holds exactly when the row exists. *)
Lemma array_includes_subscribed w U T :
  array_includes (ut_toolId <$> filter (λ r, ut_userId r = U) (userTool w)) (JStr T)
  = true
  ↔ subscribed w U T.
Proof.
  unfold array_includes, subscribed. rewrite bool_decide_eq_true, list_elem_of_fmap.
  split.
  - intros (r & -> & Hr). apply list_elem_of_filter in Hr as [Hu Hin]. eauto.
  - intros (r & Hin & Hu & Ht). exists r. split; [done|].
    apply list_elem_of_filter. done.
Qed.

Lemma subscribed_dec w U T : subscribed w U T ∨ ¬ subscribed w U T.
Proof.
  destruct (array_includes (ut_toolId <$> filter (λ r, ut_userId r = U) (userTool w))
              (JStr T)) eqn:E.
  - left. by apply array_includes_subscribed.
  - right. intros H. apply array_includes_subscribed in H. congruence.
Qed.

Lemma handleToolCall_denied T args U w :
  Js.truthy args = true →
  Js.get_prop args "userId" = Some (JStr U) →
  ¬ subscribed w U T →
  handleToolCall reg (JStr T) args w
  = (Ok (tool_error (access_denied_text T)), log w [EvUserToolFindMany (Some U)]).
Proof.
  intros Hargs Hu Hsub.
  unfold handleToolCall. rewrite Hargs. simpl.
  unfold bind, read. rewrite Hu. simpl.
  destruct (array_includes _ _) eqn:E.
  - apply array_includes_subscribed in E. contradiction.
  - reflexivity.
Qed.

Lemma handleToolCall_subscribed T args U w :
  Js.truthy args = true →
  Js.get_prop args "userId" = Some (JStr U) →
  subscribed w U T →
  handleToolCall reg (JStr T) args w
  = match toolHandlers reg T with
    | None => (Ok (tool_error (not_implemented_text T)),
               log w [EvUserToolFindMany (Some U)])
    | Some handler =>
        let toolArgs := JObj (Js.obj_remove "userId" (Js.spread args)) in
        handler toolArgs (JStr U)
          (log w [EvUserToolFindMany (Some U); EvHandler T toolArgs (JStr U)])
    end.
Proof.
  intros Hargs Hu Hsub.
  unfold handleToolCall. rewrite Hargs. simpl.
  unfold bind, read. rewrite Hu. simpl.
  destruct (array_includes _ _) eqn:E.
  - simpl. destruct (toolHandlers reg T); [|reflexivity].
    simpl. unfold log. simpl. rewrite <- app_assoc. reflexivity.
  - apply array_includes_subscribed in Hsub. congruence.
Qed.

(** Once the envelope is a Request, the router answers with the outcome
    of the dispatch and the request's [id]. *)
Lemma post_mcp_request message method id userId w :
  Request message method id →
  Routes.post_mcp reg message userId w
  = match Routes.dispatch reg message userId w with
    | (Ok result, w') => (Ok (json 200 (rpc_result result id)), w')
    | (Thrown error, w') =>
        (Ok (json 500 (rpc_error (-32603) (err_message error) id)), w')
    end.
Proof.
  intros (Hj & Hm & Hi).
  unfold Routes.post_mcp, try_catch, bind, read, key_in, and_then, bind.
  rewrite (field_get_prop _ _ _ Hj), (field_has_prop _ _ _ Hm),
    (field_has_prop _ _ _ Hi), (field_get_prop _ _ _ Hi).
  simpl. destruct (Routes.dispatch reg message userId w) as [[r|e] w']; reflexivity.
Qed.

(** A tools/call request reaches [handleToolCall] with the caller's
    [userId] written over whatever the client put under that key. *)
Lemma dispatch_tools_call message params id userId T w :
  Request message (JStr "tools/call") id →
  field message "params" = Some params →
  field params "name" = Some (JStr T) →
  Routes.dispatch reg message userId w
  = handleToolCall reg (JStr T)
      (JObj (Js.obj_set "userId" (query_value userId)
               (Js.spread (default JUndefined (field params "arguments"))))) w.
Proof.
  intros (_ & Hmeth & _) Hp Hn.
  unfold Routes.dispatch, bind, read.
  rewrite (field_get_prop _ _ _ Hmeth). simpl.
  rewrite (field_get_prop _ _ _ Hp). simpl.
  destruct params as [| | | | | |ps]; try discriminate. simpl.
  simpl in Hn. rewrite Hn. reflexivity.
Qed.

(** The router of routes.ts answers -32600 to any body whose marker is not
    the string "2.0", and performs no call. *)
Lemma Routes_validates_marker message marker userId w :
  Js.get_prop message "jsonrpc" = Some marker →
  marker ≠ JStr "2.0" →
  Routes.post_mcp reg message userId w
  = (Ok (json 400 (rpc_error (-32600)
                     "Invalid Request - missing or invalid jsonrpc field"
                     (Js.or_else (default JUndefined (Js.get_prop message "id"))
                        JNull))),
     w).
Proof.
  intros Hm Hne.
  unfold Routes.post_mcp, try_catch, bind, read. rewrite Hm. simpl.
  assert (negb (Js.truthy marker) || negb (Js.is_str marker "2.0") = true) as ->.
  { destruct marker as [| | | |s| |]; try reflexivity; try apply orb_true_r.
    simpl. destruct (String.eqb s "2.0") eqn:E.
    - apply String.eqb_eq in E. congruence.
    - apply orb_true_r. }
  destruct message; try discriminate; reflexivity.
Qed.

(** The router variant never reads the marker: with a [userId], any
    envelope that has [method] and [id] is dispatched. *)
Lemma RoutesV2_ignores_marker message method id U w :
  field message "method" = Some method →
  field message "id" = Some id →
  U ≠ "" →
  RoutesV2.post_mcp reg message (Some U) w
  = match RoutesV2.dispatch reg message (Some U) w with
    | (Ok result, w') => (Ok (json 200 (rpc_result result id)), w')
    | (Thrown error, w') =>
        (Ok (json 500 (rpc_error (-32603) (err_message error) id)), w')
    end.
Proof.
  intros Hm Hi HU. apply String.eqb_neq in HU.
  unfold RoutesV2.post_mcp, try_catch, bind, read, key_in, and_then, bind.
  simpl. rewrite HU. simpl.
  rewrite (field_has_prop _ _ _ Hm), (field_has_prop _ _ _ Hi),
    (field_get_prop _ _ _ Hi).
  simpl. destruct (RoutesV2.dispatch reg message (Some U) w) as [[r|e] w']; reflexivity.
Qed.

(** C1. A tools/call for a tool [T] by a user [U] with no UserTool row for
    (U, T) is answered with a successful JSON-RPC response (status 200, a
    [result] and the request's [id]) whose result is the tool-result object
    with [isError: true] and the access-denied text; the only external call
    of the request is the read of the user's subscriptions, so no handler
    and no provider is called and no table changes. *)
Theorem unsubscribed_call_denied message params id U T w :
  Request message (JStr "tools/call") id →
  field message "params" = Some params →
  field params "name" = Some (JStr T) →
  ¬ subscribed w U T →
  Routes.post_mcp reg message (Some U) w
  = (Ok (json 200 (rpc_result (tool_error (access_denied_text T)) id)),
     log w [EvUserToolFindMany (Some U)])
  ∧ is_error (tool_error (access_denied_text T)).
Proof.
  intros Hreq Hp Hn Hsub. split; [|apply is_error_tool_error].
  rewrite (post_mcp_request _ _ _ _ _ Hreq).
  rewrite (dispatch_tools_call _ _ _ _ _ _ Hreq Hp Hn).
  rewrite (handleToolCall_denied _ _ U); auto.
  simpl. rewrite lookup_obj_set_eq. reflexivity.
Qed.

(** C4. The result of tools/list for a user [U] lists exactly the
    registered tools whose name has a UserTool row for [U], as a
    subsequence of the registry's [tools] in registration order. *)
Theorem tools_list_subscribed message id U w :
  Request message (JStr "tools/list") id →
  ∃ listed,
    Routes.post_mcp reg message (Some U) w
    = (Ok (json 200 (rpc_result (JObj [("tools", JArr (tool_json <$> listed))]) id)),
       log w [EvUserToolFindMany (Some U)])
    ∧ listed `sublist_of` tools reg
    ∧ ∀ t, t ∈ listed ↔ t ∈ tools reg ∧ subscribed w U (name t).
Proof.
  intros Hreq.
  exists (filter (λ t, name t ∈ ut_toolId <$> filter (λ r, ut_userId r = U) (userTool w))
            (tools reg)).
  split; [|split].
  - rewrite (post_mcp_request _ _ _ _ _ Hreq).
    destruct Hreq as (_ & Hmeth & _).
    unfold Routes.dispatch, bind, read. rewrite (field_get_prop _ _ _ Hmeth).
    reflexivity.
  - apply sublist_filter.
  - intros t. rewrite list_elem_of_filter.
    pose proof (array_includes_subscribed w U (name t)) as H.
    unfold array_includes in H. rewrite bool_decide_eq_true in H. rewrite H. tauto.
Qed.

(** C7. A Request whose method is none of the dispatched ones is answered
    with a JSON-RPC error object (code -32603, the text of the thrown
    error) that carries the request's own [id]; the router returns this
    response and performs no call. *)
Theorem unknown_method_error message method id userId w :
  Request message method id →
  (∀ s, method = JStr s → s ∉ dispatched_methods) →
  Routes.post_mcp reg message userId w
  = (Ok (json 500 (rpc_error (-32603) (unknown_method_text method) id)), w).
Proof.
  intros Hreq Hm. rewrite (post_mcp_request _ _ _ _ _ Hreq).
  destruct Hreq as (_ & Hmeth & _).
  unfold Routes.dispatch, bind, read. rewrite (field_get_prop _ _ _ Hmeth). simpl.
  rewrite !is_str_false.
  - unfold interp, unknown_method_text. destruct (Js.to_string method); reflexivity.
  - intros s -> ->. apply (Hm _ eq_refl). unfold dispatched_methods. set_solver.
  - intros s -> ->. apply (Hm _ eq_refl). unfold dispatched_methods. set_solver.
  - intros s -> ->. apply (Hm _ eq_refl). unfold dispatched_methods. set_solver.
Qed.


(** C9. For a tools/call request the dispatcher passes to [handleToolCall]
    an arguments object whose [userId] is the one of the request context,
    and the handler registered for the tool is invoked with that [userId]
    (and with the remaining arguments). *)
Theorem handler_observes_caller message params id U T handler w :
  Request message (JStr "tools/call") id →
  field message "params" = Some params →
  field params "name" = Some (JStr T) →
  subscribed w U T →
  toolHandlers reg T = Some handler →
  let args := default JUndefined (field params "arguments") in
  let argsWithUser := JObj (Js.obj_set "userId" (JStr U) (Js.spread args)) in
  let toolArgs := JObj (Js.obj_remove "userId" (Js.spread argsWithUser)) in
  Js.get_prop argsWithUser "userId" = Some (JStr U)
  ∧ Routes.dispatch reg message (Some U) w
    = handleToolCall reg (JStr T) argsWithUser w
  ∧ handleToolCall reg (JStr T) argsWithUser w
    = handler toolArgs (JStr U)
        (log w [EvUserToolFindMany (Some U); EvHandler T toolArgs (JStr U)]).
Proof.
  intros Hreq Hp Hn Hsub Hh args argsWithUser toolArgs.
  assert (Js.get_prop argsWithUser "userId" = Some (JStr U)) as Hinj.
  { unfold argsWithUser. simpl. rewrite lookup_obj_set_eq. reflexivity. }
  split; [exact Hinj|]. split.
  - apply (dispatch_tools_call _ _ _ (Some U) _ _ Hreq Hp Hn).
  - rewrite (handleToolCall_subscribed _ _ U); auto.
    rewrite Hh. reflexivity.
Qed.

(** C10. In [handleToolCall] the subscription check comes before the
    lookup of the handler: without a row for (U, T) the result is the
    access-denied one whatever the registry holds under [T]; with a row
    and no handler it is the not-implemented one; and the not-implemented
    result is returned to subscribed users only. *)
Theorem subscription_check_first T args U w :
  Js.truthy args = true →
  Js.get_prop args "userId" = Some (JStr U) →
  (¬ subscribed w U T →
   handleToolCall reg (JStr T) args w
   = (Ok (tool_error (access_denied_text T)), log w [EvUserToolFindMany (Some U)]))
  ∧ (subscribed w U T → toolHandlers reg T = None →
     handleToolCall reg (JStr T) args w
     = (Ok (tool_error (not_implemented_text T)),
        log w [EvUserToolFindMany (Some U)]))
  ∧ (∀ w', handleToolCall reg (JStr T) args w
           = (Ok (tool_error (not_implemented_text T)), w') →
     subscribed w U T).
Proof.
  intros Hargs Hu. split; [|split].
  - intros Hsub. by apply handleToolCall_denied.
  - intros Hsub Hnone. rewrite (handleToolCall_subscribed _ _ U); auto.
    rewrite Hnone. reflexivity.
  - intros w' Hres. destruct (subscribed_dec w U T) as [|Hno]; [done|].
    rewrite (handleToolCall_denied _ _ U) in Hres; auto.
    exfalso. apply (denied_not_implemented_differ T).
    unfold tool_error in Hres. congruence.
Qed.

End Dispatch.

(** C5. The router variant that validates [userId] does not look at the
    marker: the envelope [{method: "initialize", id: 1}], which has no
    [jsonrpc] member, is dispatched and answered with the result of
    [initialize], where the router of routes.ts answers -32600. *)
Theorem v2_dispatches_without_marker reg w :
  let message := JObj [("method", JStr "initialize"); ("id", JNum 1)] in
  field message "jsonrpc" = None
  ∧ RoutesV2.post_mcp reg message (Some "u1") w
    = (Ok (json 200 (rpc_result RoutesV2.initialize_result (JNum 1))), w)
  ∧ Routes.post_mcp reg message (Some "u1") w
    = (Ok (json 400 (rpc_error (-32600)
                       "Invalid Request - missing or invalid jsonrpc field" (JNum 1))),
       w).
Proof. repeat split. Qed.

(** ** Counting the calls of a run *)

Lemma count_nil p : count p [] = 0%nat.
Proof. reflexivity. Qed.

Lemma count_cons p e l :
  count p (e :: l) = if p e then S (count p l) else count p l.
Proof.
  unfold count. rewrite filter_cons.
  destruct (p e); case_decide; simpl; congruence.
Qed.

Lemma count_app p l1 l2 : count p (l1 ++ l2) = (count p l1 + count p l2)%nat.
Proof. unfold count. rewrite filter_app, length_app. reflexivity. Qed.

Ltac count_norm :=
  repeat (rewrite count_app || rewrite count_cons || rewrite count_nil);
  cbn [is_refresh is_provider is_now is_handler];
  rewrite ?Nat.add_0_r, ?Nat.add_1_r.

(** ** Computations only append to the trace *)

Lemma grows_ret {A} (a : A) : grows (ret a).
Proof. intros w. exists []. simpl. by rewrite app_nil_r. Qed.

Lemma grows_throw {A} e : grows (@throw A e).
Proof. intros w. exists []. simpl. by rewrite app_nil_r. Qed.

Lemma grows_emit e : grows (emit e).
Proof. intros w. by exists [e]. Qed.

Lemma grows_bind {A B} (m : M A) (k : A → M B) :
  grows m → (∀ a, grows (k a)) → grows (bind m k).
Proof.
  intros Hm Hk w. unfold bind. destruct (Hm w) as [evs Hevs].
  destruct (m w) as [[a|e] w1]; simpl in *.
  - destruct (Hk a w1) as [evs' Hevs']. exists (evs ++ evs').
    rewrite Hevs', Hevs, app_assoc. reflexivity.
  - by exists evs.
Qed.

Lemma grows_try_catch {A} (m : M A) (h : JsError → M A) :
  grows m → (∀ e, grows (h e)) → grows (try_catch m h).
Proof.
  intros Hm Hh w. unfold try_catch. destruct (Hm w) as [evs Hevs].
  destruct (m w) as [[a|e] w1]; simpl in *.
  - by exists evs.
  - destruct (Hh e w1) as [evs' Hevs']. exists (evs ++ evs').
    rewrite Hevs', Hevs, app_assoc. reflexivity.
Qed.

Lemma grows_lift_opt {A} e (o : option A) : grows (lift_opt e o).
Proof. destruct o; [apply grows_ret|apply grows_throw]. Qed.

Lemma grows_date_now ext : grows (date_now ext).
Proof. intros w. by exists [EvNow]. Qed.

Lemma grows_oauth ext r : grows (oauth_refreshAccessToken ext r).
Proof.
  intros w. exists [EvRefresh r]. unfold oauth_refreshAccessToken, bind. simpl.
  by destruct (oauth_reply ext _).
Qed.

Lemma provider_call_eq ext tool tok request w :
  provider_call ext tool tok request w
  = match provider_reply ext (count is_provider (trace w)) with
    | ProviderOk data => (Ok data, log w [EvProvider tool tok request])
    | ProviderFail e => (Thrown e, log w [EvProvider tool tok request])
    end.
Proof.
  unfold provider_call, bind. simpl.
  destruct (provider_reply ext _); reflexivity.
Qed.

Lemma grows_provider_call ext tool tok request :
  grows (provider_call ext tool tok request).
Proof.
  intros w. exists [EvProvider tool tok request]. rewrite provider_call_eq.
  by destruct (provider_reply ext _).
Qed.

Lemma grows_update u t data : grows (accessKey_update u t data).
Proof.
  intros w. exists [EvAccessKeyUpdate u t]. unfold accessKey_update, bind. simpl.
  by destruct (accessKey w !! (u, t)).
Qed.

Ltac grows_step :=
  first
    [ apply grows_ret | apply grows_throw | apply grows_emit
    | apply grows_lift_opt | apply grows_date_now | apply grows_oauth
    | apply grows_provider_call | apply grows_update
    | apply grows_bind; [|intros ?]
    | apply grows_try_catch; [|intros ?]
    | match goal with
      | |- grows (match ?x with _ => _ end) => destruct x
      end ].

Ltac grows := repeat grows_step.

Lemma returns_ret {A} (a : A) : returns (ret a).
Proof. intros w. by eexists _, _. Qed.

Lemma returns_try_catch {A} (m : M A) h :
  (∀ e, returns (h e)) → returns (try_catch m h).
Proof.
  intros Hh w. unfold try_catch. destruct (m w) as [[a|e] w1].
  - by eexists _, _.
  - apply Hh.
Qed.

(** ** The token lifecycle of GMAIL_SENDER *)

Section GmailTokens.

Context (ext : External).

#[local] Arguments count : simpl never.
#[local] Arguments String.append : simpl never.
#[local] Arguments tool_error : simpl never.
#[local] Arguments tool_text : simpl never.
#[local] Arguments GmailSender.rawEmail : simpl never.
#[local] Arguments GmailSender.send_request : simpl never.
#[local] Arguments GmailSender.isAuthError : simpl never.
#[local] Arguments Z.add : simpl never.
#[local] Arguments Z.mul : simpl never.
#[local] Arguments Z.leb : simpl never.

(** A refresh that yields a token replaces the three fields of the stored
    row: the access token, the refresh token (the new one if the provider
    issued one, else the old one) and the expiry, one hour from now. *)
Lemma refreshAccessToken_success u r token w :
  is_Some (accessKey w !! (u, GmailSender.toolId)) →
  refreshed (oauth_reply ext (count is_refresh (trace w))) = Some token →
  GmailSender.refreshAccessToken ext u r w
  = (Ok token,
     {| userTool := userTool w;
        accessKey :=
          <[(u, GmailSender.toolId) :=
              {| accessToken := token;
                 refreshToken :=
                   Some (default r
                           (reissued (oauth_reply ext (count is_refresh (trace w)))));
                 expiryDate := clock ext (count is_now (trace w)) + 3600 * 1000 |}]>
            (accessKey w);
        trace := trace w ++ [EvRefresh r; EvNow;
                             EvAccessKeyUpdate u GmailSender.toolId] |}).
Proof.
  intros [row Hrow] Hre.
  unfold GmailSender.refreshAccessToken, try_catch, bind, oauth_refreshAccessToken, bind.
  simpl. destruct (oauth_reply ext _) as [a rt|e]; [|discriminate]. simpl in *.
  rewrite Hre. unfold date_now, bind. simpl. count_norm.
  unfold accessKey_update, bind. simpl. rewrite Hrow. simpl.
  rewrite <- !app_assoc. reflexivity.
Qed.





Lemma returns_send_with_retry u r tok toMail subject body :
  returns (GmailSender.send_with_retry ext u r tok toMail subject body).
Proof.
  unfold GmailSender.send_with_retry. apply returns_try_catch. intros e.
  destruct (GmailSender.isAuthError e).
  - apply returns_try_catch. intros e'. apply returns_ret.
  - apply returns_ret.
Qed.

Lemma sendEmail_strings tok to subj text w :
  GmailSender.sendEmail ext tok (JStr to) (JStr subj) (JStr text) w
  = provider_call ext GmailSender.toolId tok
      (GmailSender.send_request (GmailSender.rawEmail ext to subj text)) w.
Proof. reflexivity. Qed.




(** Up to the proactive check the handler validates its input and reads
    the stored row. *)
Lemma handler_preamble args to subj text u row r w :
  mail_args args to subj text →
  u ≠ "" →
  google_oauth_configured ext = true →
  accessKey w !! (u, GmailSender.toolId) = Some row →
  present (refreshToken row) = Some r →
  GmailSender.handler ext args (JStr u) w
  = bind (GmailSender.proactive_refresh ext u r row)
      (fun fresh =>
         match fresh with
         | Return result => ret result
         | Next access_token =>
             GmailSender.send_with_retry ext u r access_token
               (JStr to) (JStr subj) (JStr text)
         end)
      (log w [EvAccessKeyFindUnique u GmailSender.toolId]).
Proof.
  intros (Hto & Hsubj & Hbody & Hto' & Hsubj' & Hbody') Hu Hconf Hrow Hr.
  apply String.eqb_neq in Hto', Hsubj', Hbody', Hu.
  unfold GmailSender.handler. unfold bind at 1, read.
  rewrite (field_get_prop _ _ _ Hto). simpl. unfold bind at 1.
  rewrite (field_get_prop _ _ _ Hsubj). simpl. unfold bind at 1.
  rewrite (field_get_prop _ _ _ Hbody). simpl.
  rewrite Hto', Hsubj', Hbody', Hu, Hconf. simpl.
  unfold bind at 1. simpl. unfold bind at 1.
  unfold accessKey_findUnique, bind at 1. simpl.
  rewrite Hrow. simpl. rewrite Hr. reflexivity.
Qed.

Lemma proactive_refresh_valid u r row w :
  clock ext (count is_now (trace w)) + 5 * 60 * 1000 < expiryDate row →
  accessToken row ≠ "" →
  GmailSender.proactive_refresh ext u r row w
  = (Ok (Next (accessToken row)), log w [EvNow]).
Proof.
  intros Hexp Htok.
  unfold GmailSender.proactive_refresh, GmailSender.shouldRefreshToken, bind,
    date_now, bind.
  simpl.
  assert ((expiryDate row <=? clock ext (count is_now (trace w)) + 5 * 60 * 1000)
          = false) as -> by (apply Z.leb_gt; lia).
  apply String.eqb_neq in Htok. rewrite Htok. reflexivity.
Qed.





End GmailTokens.

(** ** The token lifecycle of CALENDAR_EVENT_CREATOR *)

Section CalendarTokens.

Context (ext : External).

#[local] Arguments count : simpl never.
#[local] Arguments String.append : simpl never.
#[local] Arguments tool_error : simpl never.
#[local] Arguments tool_text : simpl never.
#[local] Arguments CalendarEventCreator.isTokenError : simpl never.
#[local] Arguments CalendarEventCreator.insert_request : simpl never.

(** Accepted arguments make one and the same insert request at every
    attempt. *)
Lemma insert_event_request p :
  (∃ minutes, CalendarEventCreator.reminderMinutes p = JArr minutes) →
  (∃ emails, CalendarEventCreator.attendees p = JArr emails) →
  Js.truthy (CalendarEventCreator.createMeetLink p) = false →
  ∃ request, ∀ tok w,
    CalendarEventCreator.insert_event ext tok p w
    = provider_call ext CalendarEventCreator.toolId tok request w.
Proof.
  intros [minutes Hm] [emails He] Hmeet.
  unfold CalendarEventCreator.insert_event, CalendarEventCreator.eventResource.
  rewrite Hm, He, Hmeet.
  destruct emails as [|email emails]; eexists; intros tok w; reflexivity.
Qed.




End CalendarTokens.



(** C6 on the calendar handler. The stored row expires at 5000000; the
    provider refuses the first insert with a 401 and the refresh yields
    "new-token" at time 1000000. GMAIL_SENDER stores the new token with the
    expiry one hour ahead; CALENDAR_EVENT_CREATOR stores the new token and
    leaves [expiryDate] at its old value. *)
Theorem calendar_refresh_keeps_expiry :
  let after_calendar :=
    (CalendarEventCreator.handler Demo.refresh_ok Demo.meeting (JStr "u1")
       Demo.world).2 in
  let after_gmail :=
    (GmailSender.handler Demo.refresh_ok Demo.mail (JStr "u1") Demo.world).2 in
  accessKey after_calendar !! ("u1", "CALENDAR_EVENT_CREATOR")
  = Some {| accessToken := "new-token"; refreshToken := Some "refresh-0";
            expiryDate := expiryDate Demo.stored |}
  ∧ count is_refresh (trace after_calendar) = 1%nat
  ∧ accessKey after_gmail !! ("u1", "GMAIL_SENDER")
    = Some {| accessToken := "new-token"; refreshToken := Some "refresh-0";
              expiryDate := 1000000 + 3600 * 1000 |}.
Proof. repeat split. Qed.

(** The calendar handler does not treat a 403 as a token error: the error is
    returned as it is, without a refresh. *)
Example calendar_forbidden_not_refreshed :
  let forbidden := {| err_code := JNum 403; err_message := "Forbidden" |} in
  let ext := Demo.ext (fun _ => RefreshOk (Some "new-token") None)
               (fun _ => ProviderFail forbidden) in
  let run := CalendarEventCreator.handler ext Demo.meeting (JStr "u1")
               Demo.world in
  GmailSender.isAuthError forbidden = true
  ∧ CalendarEventCreator.isTokenError forbidden = false
  ∧ count is_refresh (trace run.2) = 0%nat
  ∧ count is_provider (trace run.2) = 1%nat.
Proof. repeat split. Qed.

(** The handler of toolsFolder/GMAIL_SENDER.ts has no refresh at all. *)
Example basic_handler_never_refreshes :
  let run := GmailSenderBasic.handler Demo.refresh_ok Demo.mail (JStr "u1")
               Demo.world in
  run.1 = Ok (tool_error "❌ Failed to send email: Invalid Credentials")
  ∧ count is_refresh (trace run.2) = 0%nat
  ∧ count is_provider (trace run.2) = 1%nat.
Proof. repeat split. Qed.

(** ** The statements at work on the example deployment *)

Lemma unsubscribed_call_denied_witness :
  Routes.post_mcp Demo.reg (Demo.call "calculate" (JObj [])) (Some "u1")
    Demo.world
  = (Ok (json 200 (rpc_result (tool_error (access_denied_text "calculate")) (JNum 7))),
     log Demo.world [EvUserToolFindMany (Some "u1")]).
Proof.
  refine (proj1 (unsubscribed_call_denied Demo.reg
                   (Demo.call "calculate" (JObj []))
                   (JObj [("name", JStr "calculate"); ("arguments", JObj [])])
                   (JNum 7) "u1" "calculate" Demo.world _ _ _ _)).
  - repeat split.
  - reflexivity.
  - reflexivity.
  - intros H. apply array_includes_subscribed in H. vm_compute in H. discriminate H.
Defined.



Lemma tools_list_subscribed_witness :
  ∃ listed,
    Routes.post_mcp Demo.reg Demo.list_tools (Some "u1") Demo.world
    = (Ok (json 200 (rpc_result (JObj [("tools", JArr (tool_json <$> listed))])
                       (JNum 8))),
       log Demo.world [EvUserToolFindMany (Some "u1")])
    ∧ listed `sublist_of` tools Demo.reg
    ∧ ∀ t, t ∈ listed ↔ t ∈ tools Demo.reg ∧ subscribed Demo.world "u1" (name t).
Proof.
  apply (tools_list_subscribed Demo.reg Demo.list_tools (JNum 8) "u1"
           Demo.world).
  repeat split.
Defined.

Lemma unknown_method_error_witness :
  Routes.post_mcp Demo.reg Demo.ping (Some "u1") Demo.world
  = (Ok (json 500 (rpc_error (-32603) "Method not found: ping" (JNum 0))),
     Demo.world).
Proof.
  apply (unknown_method_error Demo.reg Demo.ping (JStr "ping") (JNum 0)
           (Some "u1") Demo.world).
  - repeat split.
  - intros s [= <-] H. vm_compute in H.
    repeat (apply elem_of_cons in H as [H|H]; [discriminate H|]).
    by apply elem_of_nil in H.
Defined.


Lemma handler_observes_caller_witness :
  handleToolCall Demo.reg (JStr "get_time")
    (JObj [("userId", JStr "u1")]) Demo.world
  = Demo.get_time (JObj []) (JStr "u1")
      (log Demo.world [EvUserToolFindMany (Some "u1");
                          EvHandler "get_time" (JObj []) (JStr "u1")]).
Proof.
  refine (proj2 (proj2 (handler_observes_caller Demo.reg
                          (Demo.call "get_time" (JObj [("userId", JStr "intruder")]))
                          (JObj [("name", JStr "get_time");
                                 ("arguments", JObj [("userId", JStr "intruder")])])
                          (JNum 7) "u1" "get_time" Demo.get_time Demo.world
                          _ _ _ _ _))).
  - repeat split.
  - reflexivity.
  - reflexivity.
  - apply array_includes_subscribed. vm_compute. reflexivity.
  - reflexivity.
Defined.

Lemma subscription_check_first_witness :
  handleToolCall Demo.reg (JStr "calculate") (JObj [("userId", JStr "u1")])
    Demo.world
  = (Ok (tool_error (access_denied_text "calculate")),
     log Demo.world [EvUserToolFindMany (Some "u1")])
  ∧ handleToolCall Demo.reg (JStr "calculate") (JObj [("userId", JStr "u2")])
      Demo.world
    = (Ok (tool_error (not_implemented_text "calculate")),
       log Demo.world [EvUserToolFindMany (Some "u2")]).
Proof.
  split.
  - apply (subscription_check_first Demo.reg "calculate"
             (JObj [("userId", JStr "u1")]) "u1" Demo.world);
      [reflexivity|reflexivity|].
    intros H. apply array_includes_subscribed in H. vm_compute in H. discriminate H.
  - apply (subscription_check_first Demo.reg "calculate"
             (JObj [("userId", JStr "u2")]) "u2" Demo.world);
      [reflexivity|reflexivity| |reflexivity].
    apply array_includes_subscribed. vm_compute. reflexivity.
Defined.

(** * Further properties of the request path *)

(** ** The answers of the JSON-RPC endpoint *)

Section Answers.

Context (reg : Registry).

#[local] Arguments Routes.dispatch : simpl never.
#[local] Arguments RoutesV2.dispatch : simpl never.
#[local] Arguments String.append : simpl never.

Lemma rpc_answer_result result id : rpc_answer (json 200 (rpc_result result id)).
Proof. right. left. eauto. Qed.

Lemma rpc_answer_error s code message id :
  (s, code) ∈ [(400, -32600); (400, -32602); (400, -32700); (500, -32603)] →
  rpc_answer (json s (rpc_error code message id)).
Proof. intros H. right. right. eauto 10. Qed.

Ltac answer :=
  eexists _, _; split; [reflexivity|];
  first [ by left
        | apply rpc_answer_result
        | apply rpc_answer_error; set_solver ].

(** X1. Whatever the body, the query string, the registry and its handlers do,
    both routers settle with a response, and the response is an empty 204,
    a JSON-RPC result with status 200, or a JSON-RPC error with one of the
    pairs 400/-32600, 400/-32602, 400/-32700, 500/-32603. *)
Theorem post_mcp_always_answers message userId w :
  (∃ r w', Routes.post_mcp reg message userId w = (Ok r, w') ∧ rpc_answer r)
  ∧ (∃ r w', RoutesV2.post_mcp reg message userId w = (Ok r, w') ∧ rpc_answer r).
Proof.
  split.
  - unfold Routes.post_mcp, try_catch, bind, read, key_in, and_then, bind.
    destruct message as [| | | | | |fs]; simpl; try answer.
    destruct (negb _ || negb _); simpl; [answer|].
    destruct (bool_decide (is_Some (Js.lookup_field "method" fs)));
      destruct (bool_decide (is_Some (Js.lookup_field "id" fs))); simpl;
      try answer.
    destruct (Routes.dispatch reg (JObj fs) userId w) as [[result|e] w1];
      simpl; answer.
  - unfold RoutesV2.post_mcp, try_catch, bind, read, key_in, and_then, bind.
    destruct (negb (Js.truthy (query_value userId))); [answer|].
    destruct message as [| | | | | |fs]; simpl; try answer.
    destruct (bool_decide (is_Some (Js.lookup_field "method" fs)));
      destruct (bool_decide (is_Some (Js.lookup_field "id" fs))); simpl;
      try answer.
    destruct (RoutesV2.dispatch reg (JObj fs) userId w) as [[result|e] w1];
      simpl; answer.
Qed.

(** X2. The answer -32700 of routes.ts is given to a body that is [undefined]
    or [null], and to no other: every other body is classified by its
    members. The router variant gives its -32700 answer, for a request
    that carries a userId, exactly to the bodies that are neither an object
    nor an array. Neither performs a call. *)
Theorem parse_error_only_without_envelope message userId w :
  (message = JUndefined ∨ message = JNull →
   Routes.post_mcp reg message userId w
   = (Ok (json 400 (rpc_error (-32700) "Parse error" JNull)), w))
  ∧ (∀ w', Routes.post_mcp reg message userId w
           = (Ok (json 400 (rpc_error (-32700) "Parse error" JNull)), w') →
     message = JUndefined ∨ message = JNull)
  ∧ (∀ U, userId = Some U → U ≠ "" →
     (∃ w', RoutesV2.post_mcp reg message userId w
            = (Ok (json 400 (rpc_error (-32700) "Parse error or invalid request"
                               JNull)), w'))
     ↔ match message with JObj _ | JArr _ => False | _ => True end).
Proof.
  split; [|split].
  - intros [-> | ->]; reflexivity.
  - intros w'.
    unfold Routes.post_mcp, try_catch, bind, read, key_in, and_then, bind.
    destruct message as [| | | | | |fs]; simpl; auto; try discriminate.
    destruct (negb _ || negb _); simpl; [discriminate|].
    destruct (bool_decide (is_Some (Js.lookup_field "method" fs)));
      destruct (bool_decide (is_Some (Js.lookup_field "id" fs))); simpl;
      try discriminate.
    destruct (Routes.dispatch reg (JObj fs) userId w) as [[result|e] w1];
      simpl; discriminate.
  - intros U -> HU. apply String.eqb_neq in HU.
    unfold RoutesV2.post_mcp, try_catch, bind, read, key_in, and_then, bind.
    simpl. rewrite HU. simpl.
    destruct message as [| | | | | |fs]; simpl;
      try (split; [done|intros _; by eexists]).
    + split; [|done]. intros [w' H]. discriminate.
    + split; [|done]. intros [w' H]. revert H.
      destruct (bool_decide (is_Some (Js.lookup_field "method" fs)));
        destruct (bool_decide (is_Some (Js.lookup_field "id" fs))); simpl;
        try discriminate.
      destruct (RoutesV2.dispatch reg (JObj fs) (Some U) w) as [[result|e] w1];
        simpl; discriminate.
Qed.

(** An envelope with the marker and no [method]. *)
Lemma missing_method_rejected message userId w :
  field message "jsonrpc" = Some (JStr "2.0") →
  field message "method" = None →
  Routes.post_mcp reg message userId w
  = (Ok (json 400 (rpc_error (-32600) "Invalid Request - missing method"
                     (Js.or_else (default JUndefined (field message "id")) JNull))),
     w).
Proof.
  intros Hj Hm. destruct message as [| | | | | |fs]; try discriminate.
  simpl in Hj, Hm.
  unfold Routes.post_mcp, try_catch, bind, read, key_in, and_then, bind.
  simpl. rewrite Hj, Hm. simpl. reflexivity.
Qed.

(** A tools/call request without [params]. *)
Lemma tools_call_needs_params message id userId w :
  Request message (JStr "tools/call") id →
  Js.truthy (default JUndefined (field message "params")) = false →
  Routes.post_mcp reg message userId w
  = (Ok (json 500 (rpc_error (-32603) "Missing parameters for tools/call" id)), w).
Proof.
  intros Hreq Hp. rewrite (post_mcp_request _ _ _ _ _ _ Hreq).
  destruct Hreq as (_ & Hmeth & _).
  destruct message as [| | | | | |fs]; try discriminate. simpl in *.
  unfold Routes.dispatch, bind, read. simpl. rewrite Hmeth. simpl.
  rewrite Hp. reflexivity.
Qed.

Lemma obj_remove_obj_set k v fs :
  Js.obj_remove k (Js.obj_set k v fs) = Js.obj_remove k fs.
Proof.
  induction fs as [|[k' v'] fs IH]; simpl.
  - by rewrite String.eqb_refl.
  - destruct (String.eqb k k') eqn:E; simpl.
    + by rewrite String.eqb_refl.
    + by rewrite E, IH.
Qed.

Lemma lookup_obj_remove k k' fs :
  Js.lookup_field k (Js.obj_remove k' fs)
  = if String.eqb k k' then None else Js.lookup_field k fs.
Proof.
  induction fs as [|[k0 v0] fs IH]; simpl.
  - by destruct (String.eqb k k').
  - destruct (String.eqb k' k0) eqn:E0.
    + apply String.eqb_eq in E0 as <-. rewrite IH.
      by destruct (String.eqb k k').
    + simpl. destruct (String.eqb k k0) eqn:E1.
      * apply String.eqb_eq in E1 as <-.
        rewrite String.eqb_sym in E0. by rewrite E0.
      * exact IH.
Qed.

(** X3. The two rewritings of the arguments, [{...args, userId}] in the router
    and [{userId, ...toolArgs}] in [handleToolCall], compose to the removal
    of [userId]: the handler's arguments have no [userId] entry, whatever
    the client sent, carry every other entry of the client's arguments
    unchanged and in order, and do not depend on the caller's identity. *)
Theorem tool_arguments_without_userId args userId :
  let argsWithUser := JObj (Js.obj_set "userId" userId (Js.spread args)) in
  let toolArgs := Js.obj_remove "userId" (Js.spread argsWithUser) in
  toolArgs = Js.obj_remove "userId" (Js.spread args)
  ∧ Js.lookup_field "userId" toolArgs = None
  ∧ (∀ k, k ≠ "userId" → Js.lookup_field k toolArgs = Js.lookup_field k (Js.spread args))
  ∧ toolArgs `sublist_of` Js.spread args.
Proof.
  simpl. rewrite obj_remove_obj_set. split; [done|]. split; [|split].
  - by rewrite lookup_obj_remove.
  - intros k Hk. rewrite lookup_obj_remove.
    apply String.eqb_neq in Hk. by rewrite Hk.
  - induction (Js.spread args) as [|[k v] fs IH]; cbn [Js.obj_remove]; [done|].
    destruct (String.eqb _ k); by constructor.
Qed.

Lemma dispatch_tools_call_v2 message params userId T w :
  field message "method" = Some (JStr "tools/call") →
  field message "params" = Some params →
  field params "name" = Some (JStr T) →
  T ≠ "" →
  RoutesV2.dispatch reg message userId w
  = try_catch
      (handleToolCall reg (JStr T)
         (JObj (Js.obj_set "userId" (query_value userId)
                  (Js.spread (default JUndefined (field params "arguments"))))))
      (fun error => throw (Error ("Tool execution failed: " +:+ err_message error)))
      w.
Proof.
  intros Hmeth Hp Hn HT. apply String.eqb_neq in HT.
  unfold RoutesV2.dispatch, bind, read.
  rewrite (field_get_prop _ _ _ Hmeth). simpl.
  rewrite (field_get_prop _ _ _ Hp). simpl.
  destruct params as [| | | | | |ps]; try discriminate. simpl.
  simpl in Hn. rewrite Hn. simpl. rewrite HT. reflexivity.
Qed.

(** X4. What a subscribed caller gets from a registered tool: the handler runs
    on the client's arguments without [userId]; what it returns is the
    [result] of a 200 answer, verbatim; if it throws, the answer is
    500 / -32603 with the error's message (routes.ts), prefixed by "Tool
    execution failed: " in the router variant. Both answers carry the
    request's [id], and the world is the one the handler left. *)
Theorem handler_outcome_relayed message params id U T handler w :
  Request message (JStr "tools/call") id →
  field message "params" = Some params →
  field params "name" = Some (JStr T) →
  T ≠ "" →
  U ≠ "" →
  subscribed w U T →
  toolHandlers reg T = Some handler →
  let toolArgs :=
    JObj (Js.obj_remove "userId"
            (Js.spread (default JUndefined (field params "arguments")))) in
  let run :=
    handler toolArgs (JStr U)
      (log w [EvUserToolFindMany (Some U); EvHandler T toolArgs (JStr U)]) in
  Routes.post_mcp reg message (Some U) w
  = (Ok match run.1 with
        | Ok result => json 200 (rpc_result result id)
        | Thrown e => json 500 (rpc_error (-32603) (err_message e) id)
        end, run.2)
  ∧ RoutesV2.post_mcp reg message (Some U) w
    = (Ok match run.1 with
          | Ok result => json 200 (rpc_result result id)
          | Thrown e =>
              json 500 (rpc_error (-32603)
                          ("Tool execution failed: " +:+ err_message e) id)
          end, run.2).
Proof.
  intros Hreq Hp Hn HT HU Hsub Hh toolArgs run.
  assert (∀ args, handleToolCall reg (JStr T)
            (JObj (Js.obj_set "userId" (JStr U) (Js.spread args))) w
          = handler (JObj (Js.obj_remove "userId" (Js.spread args))) (JStr U)
              (log w [EvUserToolFindMany (Some U);
                      EvHandler T (JObj (Js.obj_remove "userId" (Js.spread args)))
                        (JStr U)])) as Hcall.
  { intros args. rewrite (handleToolCall_subscribed _ _ _ U); auto.
    - rewrite Hh. simpl. by rewrite obj_remove_obj_set.
    - simpl. by rewrite lookup_obj_set_eq. }
  split.
  - rewrite (post_mcp_request _ _ _ _ _ _ Hreq).
    rewrite (dispatch_tools_call _ _ _ _ _ _ _ Hreq Hp Hn). simpl.
    rewrite Hcall. fold toolArgs. fold run. by destruct run as [[r|e] w'].
  - destruct Hreq as (_ & Hmeth & Hid).
    rewrite (RoutesV2_ignores_marker _ _ _ _ _ _ Hmeth Hid HU).
    rewrite (dispatch_tools_call_v2 _ _ _ _ _ Hmeth Hp Hn HT).
    unfold try_catch. simpl. rewrite Hcall. fold toolArgs. fold run.
    by destruct run as [[r|e] w'].
Qed.

End Answers.

(** ** What a run leaves untouched *)

Section Frames.

Context (R : World → World → Prop) (HR : Frame R).

Lemma keeps_ret {A} (a : A) : keeps R (ret a).
Proof. intros w. apply (frame_refl R HR). Qed.

Lemma keeps_throw {A} e : keeps R (@throw A e).
Proof. intros w. apply (frame_refl R HR). Qed.

Lemma keeps_emit e : keeps R (emit e).
Proof. intros w. apply (frame_log R HR w [e]). Qed.

Lemma keeps_lift_opt {A} e (o : option A) : keeps R (lift_opt e o).
Proof. destruct o; [apply keeps_ret|apply keeps_throw]. Qed.

Lemma keeps_bind {A B} (m : M A) (k : A → M B) :
  keeps R m → (∀ a, keeps R (k a)) → keeps R (bind m k).
Proof.
  intros Hm Hk w. unfold bind. specialize (Hm w).
  destruct (m w) as [[a|e] w1]; simpl in *; [|done].
  eapply (frame_trans R HR); [exact Hm|apply Hk].
Qed.

Lemma keeps_try_catch {A} (m : M A) (h : JsError → M A) :
  keeps R m → (∀ e, keeps R (h e)) → keeps R (try_catch m h).
Proof.
  intros Hm Hh w. unfold try_catch. specialize (Hm w).
  destruct (m w) as [[a|e] w1]; simpl in *; [done|].
  eapply (frame_trans R HR); [exact Hm|apply Hh].
Qed.

Lemma keeps_date_now ext : keeps R (date_now ext).
Proof. intros w. apply (frame_log R HR w [EvNow]). Qed.

Lemma keeps_oauth ext r : keeps R (oauth_refreshAccessToken ext r).
Proof.
  intros w. unfold oauth_refreshAccessToken, bind. simpl.
  destruct (oauth_reply ext _); apply (frame_log R HR w [EvRefresh r]).
Qed.

Lemma keeps_provider_call ext tool tok request :
  keeps R (provider_call ext tool tok request).
Proof.
  intros w. rewrite provider_call_eq.
  destruct (provider_reply ext _); apply (frame_log R HR).
Qed.

Lemma keeps_findUnique u t : keeps R (accessKey_findUnique u t).
Proof. intros w. apply (frame_log R HR w [EvAccessKeyFindUnique u t]). Qed.

Lemma keeps_findMany userId : keeps R (userTool_findMany userId).
Proof.
  intros w. destruct userId; try apply (frame_refl R HR);
    apply (frame_log R HR w [_]).
Qed.

Lemma keeps_key_string userId : keeps R (key_string userId).
Proof. destruct userId; first [apply keeps_ret|apply keeps_throw]. Qed.

Lemma keeps_requestId ext : keeps R (CalendarEventCreator.requestId ext).
Proof. intros w. apply (frame_log R HR w [EvNow]). Qed.

End Frames.

(** Runs the frame rules; [extra] closes the steps that write. *)
Ltac keeps_with HR extra :=
  repeat first
    [ apply (keeps_ret _ HR) | apply (keeps_throw _ HR) | apply (keeps_emit _ HR)
    | apply (keeps_lift_opt _ HR) | apply (keeps_date_now _ HR)
    | apply (keeps_oauth _ HR) | apply (keeps_provider_call _ HR)
    | apply (keeps_findUnique _ HR) | apply (keeps_findMany _ HR)
    | apply (keeps_key_string _ HR) | apply (keeps_requestId _ HR)
    | extra
    | apply (keeps_bind _ HR); [|intros ?]
    | apply (keeps_try_catch _ HR); [|intros ?]
    | match goal with
      | |- keeps _ (match ?x with _ => _ end) => destruct x
      end ].

Lemma keeps_bind_ret R {A B} (a : A) (k : A → M B) :
  keeps R (k a) → keeps R (bind (ret a) k).
Proof. intros H w. exact (H w). Qed.

Lemma keeps_bind_throw R {A B} e (k : A → M B) :
  Frame R → keeps R (bind (throw e) k).
Proof. intros HR w. apply (frame_refl R HR). Qed.

Lemma keeps_bind_key_string R {B} userId (k : string → M B) :
  Frame R →
  (∀ u, userId = JStr u → keeps R (k u)) →
  keeps R (bind (key_string userId) k).
Proof.
  intros HR Hk. destruct userId; try apply (keeps_bind_throw _ _ _ HR).
  apply keeps_bind_ret. by apply Hk.
Qed.

(** The blocks of the handlers that call out and write nothing. *)
Section ReadOnlyBlocks.

Context (R : World → World → Prop) (HR : Frame R) (ext : External).

Lemma keeps_sendEmail tok toMail subject body :
  keeps R (GmailSender.sendEmail ext tok toMail subject body).
Proof. unfold GmailSender.sendEmail, interp. keeps_with HR fail. Qed.

Lemma keeps_sent_text toMail suffix res :
  keeps R (GmailSender.sent_text toMail suffix res).
Proof. unfold GmailSender.sent_text, interp, read. keeps_with HR fail. Qed.

Lemma keeps_insert_event tok p : keeps R (CalendarEventCreator.insert_event ext tok p).
Proof.
  unfold CalendarEventCreator.insert_event, CalendarEventCreator.eventResource,
    CalendarEventCreator.has_elements, CalendarEventCreator.array_map.
  keeps_with HR fail.
Qed.

Lemma keeps_created_text headline event p :
  keeps R (CalendarEventCreator.created_text ext headline event p).
Proof. unfold CalendarEventCreator.created_text. keeps_with HR fail. Qed.

End ReadOnlyBlocks.

Ltac keeps_blocks HR extra :=
  keeps_with HR
    ltac:(first [ apply (keeps_sendEmail _ HR) | apply (keeps_sent_text _ HR)
                | apply (keeps_insert_event _ HR) | apply (keeps_created_text _ HR)
                | apply (keeps_bind_key_string _ _ _ HR); intros ? ?
                | extra ]).

Lemma same_tables_frame : Frame same_tables.
Proof.
  split.
  - by intros w.
  - intros w1 w2 w3 [H1 H2] [H3 H4]. split; congruence.
  - by intros w evs.
Qed.

Lemma own_row_only_frame tool userId : Frame (own_row_only tool userId).
Proof.
  split.
  - by intros w.
  - intros w1 w2 w3 (H1 & H2 & H3) (H4 & H5 & H6). split; [congruence|]. split.
    + intros k. by rewrite H5, H2.
    + intros k Hk. by rewrite H6, H3.
  - by intros w evs.
Qed.

Lemma same_expiry_frame : Frame same_expiry.
Proof.
  split.
  - by intros w.
  - intros w1 w2 w3 H1 H2 k. by rewrite H2, H1.
  - by intros w evs.
Qed.

(** An update rewrites the row of its key, and only if the row exists. *)
Lemma keeps_update_own_row tool u data :
  keeps (own_row_only tool (JStr u)) (accessKey_update u tool data).
Proof.
  intros w. unfold accessKey_update, bind. simpl.
  destruct (accessKey w !! (u, tool)) as [row|] eqn:Hrow; simpl; [|done].
  split; [done|]. split.
  - intros k. simpl. destruct (decide (k = (u, tool))) as [->|Hne].
    + rewrite lookup_insert_eq, Hrow. split; by eexists.
    + by rewrite lookup_insert_ne.
  - intros k Hk. simpl. rewrite lookup_insert_ne; [done|].
    intros <-. by apply (Hk u).
Qed.

Lemma keeps_update_same_expiry u t data :
  (∀ row, expiryDate (data row) = expiryDate row) →
  keeps same_expiry (accessKey_update u t data).
Proof.
  intros Hdata w. unfold accessKey_update, bind. simpl.
  destruct (accessKey w !! (u, t)) as [row|] eqn:Hrow; simpl; [|done].
  intros k. simpl. destruct (decide (k = (u, t))) as [->|Hne].
  - by rewrite lookup_insert_eq, Hrow; simpl; rewrite Hdata.
  - by rewrite lookup_insert_ne.
Qed.

(** X5. The router and [handleToolCall] write to no table themselves: a
    relation between the worlds before and after that every registered
    handler maintains (for one, that both tables are unchanged) is
    maintained by the whole request, in both routers. *)
Theorem router_writes_through_handlers_only R reg message userId :
  Frame R →
  (∀ key handler args u,
     toolHandlers reg key = Some handler → keeps R (handler args u)) →
  keeps R (Routes.post_mcp reg message userId)
  ∧ keeps R (RoutesV2.post_mcp reg message userId).
Proof.
  intros HR Hh.
  assert (∀ name args, keeps R (handleToolCall reg name args)) as Hcall.
  { intros name args. unfold handleToolCall, interp, read.
    keeps_with HR
      ltac:(first
        [ match goal with
          | |- keeps _ (match toolHandlers ?r ?k with _ => _ end) =>
              destruct (toolHandlers r k) eqn:?
          end
        | eapply Hh; eassumption ]). }
  split.
  - unfold Routes.post_mcp, Routes.dispatch, getToolsForUser, and_then, key_in,
      interp, read.
    keeps_with HR ltac:(apply Hcall).
  - unfold RoutesV2.post_mcp, RoutesV2.dispatch, getToolsForUser, and_then, key_in,
      interp, read.
    keeps_with HR ltac:(apply Hcall).
Qed.

(** ** Frames of the provider-backed handlers *)

Section HandlerFrames.

Context (ext : External).

(** X6. Whatever its input and whatever the provider and the token endpoint
    answer, a run of GMAIL_SENDER leaves the UserTool table alone, creates
    and deletes no AccessKey row, and rewrites no row but the one of its
    own key [(userId, "GMAIL_SENDER")]. *)
Theorem gmail_touches_own_row_only args userId :
  keeps (own_row_only GmailSender.toolId userId) (GmailSender.handler ext args userId).
Proof.
  pose proof (own_row_only_frame GmailSender.toolId userId) as HR.
  unfold GmailSender.handler, GmailSender.proactive_refresh,
    GmailSender.send_with_retry, GmailSender.refreshAccessToken,
    GmailSender.shouldRefreshToken, read.
  keeps_blocks HR ltac:(subst userId; apply keeps_update_own_row).
Qed.

Lemma basic_gmail_keeps_tables args userId :
  keeps same_tables (GmailSenderBasic.handler ext args userId).
Proof.
  unfold GmailSenderBasic.handler, interp, read.
  keeps_blocks same_tables_frame fail.
Qed.

(** X7. Whatever its input and whatever the provider and the token endpoint
    answer, a run of CALENDAR_EVENT_CREATOR keeps the expiry of every stored
    credential, its own included, creates and deletes no AccessKey row,
    rewrites no row but the one of its own key, and leaves the UserTool
    table alone. *)
Theorem calendar_never_moves_expiry args userId :
  keeps same_expiry (CalendarEventCreator.handler ext args userId)
  ∧ keeps (own_row_only CalendarEventCreator.toolId userId)
      (CalendarEventCreator.handler ext args userId).
Proof.
  split.
  - unfold CalendarEventCreator.handler, CalendarEventCreator.insert_with_retry.
    keeps_blocks same_expiry_frame ltac:(by apply keeps_update_same_expiry).
  - pose proof (own_row_only_frame CalendarEventCreator.toolId userId) as HR.
    unfold CalendarEventCreator.handler, CalendarEventCreator.insert_with_retry.
    keeps_blocks HR ltac:(subst userId; apply keeps_update_own_row).
Qed.

End HandlerFrames.

(** ** Call budgets *)

Lemma within_weaken {A} a b a' b' (m : M A) :
  within a b m → (a ≤ a')%nat → (b ≤ b')%nat → within a' b' m.
Proof.
  intros H Ha Hb w. destruct (H w) as (evs & Hevs & Hp & Hr).
  exists evs. split; [done|]. lia.
Qed.

Lemma within_silent {A} a b (m : M A) evs :
  (∀ w, trace (m w).2 = trace w ++ evs) →
  count is_provider evs = 0%nat → count is_refresh evs = 0%nat →
  within a b m.
Proof. intros H Hp Hr w. exists evs. split; [apply H|]. lia. Qed.

Lemma within_ret {A} a b (x : A) : within a b (ret x).
Proof. apply (within_silent _ _ _ []); [intros w; simpl; by rewrite app_nil_r|done..]. Qed.

Lemma within_throw {A} a b e : within a b (@throw A e).
Proof. apply (within_silent _ _ _ []); [intros w; simpl; by rewrite app_nil_r|done..]. Qed.

Lemma within_lift_opt {A} a b e (o : option A) : within a b (lift_opt e o).
Proof. destruct o; [apply within_ret|apply within_throw]. Qed.

Lemma within_key_string a b userId : within a b (key_string userId).
Proof. destruct userId; first [apply within_ret|apply within_throw]. Qed.

Lemma within_date_now a b ext : within a b (date_now ext).
Proof. by apply (within_silent _ _ _ [EvNow]). Qed.

Lemma within_requestId a b ext : within a b (CalendarEventCreator.requestId ext).
Proof. by apply (within_silent _ _ _ [EvNow]). Qed.

Lemma within_findUnique a b u t : within a b (accessKey_findUnique u t).
Proof. by apply (within_silent _ _ _ [EvAccessKeyFindUnique u t]). Qed.

Lemma within_update a b u t data : within a b (accessKey_update u t data).
Proof.
  apply (within_silent _ _ _ [EvAccessKeyUpdate u t]); [|done..].
  intros w. unfold accessKey_update, bind. simpl.
  by destruct (accessKey w !! (u, t)).
Qed.

Lemma within_oauth a b ext r : within a (S b) (oauth_refreshAccessToken ext r).
Proof.
  intros w. exists [EvRefresh r]. split.
  - unfold oauth_refreshAccessToken, bind. simpl. by destruct (oauth_reply ext _).
  - count_norm. lia.
Qed.

Lemma within_provider_call a b ext tool tok request :
  within (S a) b (provider_call ext tool tok request).
Proof.
  intros w. exists [EvProvider tool tok request]. split.
  - rewrite provider_call_eq. by destruct (provider_reply ext _).
  - count_norm. lia.
Qed.

Lemma within_bind {A B} a1 b1 a2 b2 (m : M A) (k : A → M B) :
  within a1 b1 m → (∀ x, within a2 b2 (k x)) →
  within (a1 + a2) (b1 + b2) (bind m k).
Proof.
  intros Hm Hk w. unfold bind. destruct (Hm w) as (evs & Hevs & Hp & Hr).
  destruct (m w) as [[x|e] w1]; simpl in *.
  - destruct (Hk x w1) as (evs' & Hevs' & Hp' & Hr'). exists (evs ++ evs').
    rewrite Hevs', Hevs, app_assoc, !count_app. split; [done|]. lia.
  - exists evs. split; [done|]. lia.
Qed.

Lemma within_try_catch {A} a1 b1 a2 b2 (m : M A) (h : JsError → M A) :
  within a1 b1 m → (∀ e, within a2 b2 (h e)) →
  within (a1 + a2) (b1 + b2) (try_catch m h).
Proof.
  intros Hm Hh w. unfold try_catch. destruct (Hm w) as (evs & Hevs & Hp & Hr).
  destruct (m w) as [[x|e] w1]; simpl in *.
  - exists evs. split; [done|]. lia.
  - destruct (Hh e w1) as (evs' & Hevs' & Hp' & Hr'). exists (evs ++ evs').
    rewrite Hevs', Hevs, app_assoc, !count_app. split; [done|]. lia.
Qed.

(** The three ways a step takes from the budget of what follows it:
    nothing, one provider call, one refresh call. *)
Lemma within_bind_quiet {A B} a b (m : M A) (k : A → M B) :
  within 0 0 m → (∀ x, within a b (k x)) → within a b (bind m k).
Proof. apply (within_bind 0 0 a b). Qed.

Lemma within_bind_provider {A B} a b (m : M A) (k : A → M B) :
  within 1 0 m → (∀ x, within a b (k x)) → within (S a) b (bind m k).
Proof. apply (within_bind 1 0 a b). Qed.

Lemma within_bind_refresh {A B} a b (m : M A) (k : A → M B) :
  within 0 1 m → (∀ x, within a b (k x)) → within a (S b) (bind m k).
Proof. apply (within_bind 0 1 a b). Qed.

Lemma within_try_quiet {A} a b (m : M A) (h : JsError → M A) :
  within 0 0 m → (∀ e, within a b (h e)) → within a b (try_catch m h).
Proof. apply (within_try_catch 0 0 a b). Qed.

Lemma within_try_provider {A} a b (m : M A) (h : JsError → M A) :
  within 1 0 m → (∀ e, within a b (h e)) → within (S a) b (try_catch m h).
Proof. apply (within_try_catch 1 0 a b). Qed.

Lemma within_try_refresh {A} a b (m : M A) (h : JsError → M A) :
  within 0 1 m → (∀ e, within a b (h e)) → within a (S b) (try_catch m h).
Proof. apply (within_try_catch 0 1 a b). Qed.

Lemma within_bind_all {A B} a b (m : M A) (k : A → M B) :
  within a b m → (∀ x, within 0 0 (k x)) → within a b (bind m k).
Proof.
  intros Hm Hk. apply (within_weaken (a + 0) (b + 0)); [|lia..].
  by apply within_bind.
Qed.

Lemma within_try_all {A} a b (m : M A) (h : JsError → M A) :
  within a b m → (∀ e, within 0 0 (h e)) → within a b (try_catch m h).
Proof.
  intros Hm Hh. apply (within_weaken (a + 0) (b + 0)); [|lia..].
  by apply within_try_catch.
Qed.

Ltac budget_with blocks :=
  cbv beta iota zeta;
  lazymatch goal with
  | |- within _ _ (bind _ _) =>
      first
        [ apply within_bind_quiet; [solve [budget_with blocks]|intros ?; budget_with blocks]
        | apply within_bind_provider;
            [solve [budget_with blocks]|intros ?; budget_with blocks]
        | apply within_bind_refresh;
            [solve [budget_with blocks]|intros ?; budget_with blocks]
        | apply within_bind_all;
            [solve [budget_with blocks]|intros ?; budget_with blocks] ]
  | |- within _ _ (try_catch _ _) =>
      first
        [ apply within_try_quiet; [solve [budget_with blocks]|intros ?; budget_with blocks]
        | apply within_try_provider;
            [solve [budget_with blocks]|intros ?; budget_with blocks]
        | apply within_try_refresh;
            [solve [budget_with blocks]|intros ?; budget_with blocks]
        | apply within_try_all;
            [solve [budget_with blocks]|intros ?; budget_with blocks] ]
  | |- within _ _ (match ?x with _ => _ end) => destruct x; budget_with blocks
  | |- _ =>
      first
        [ apply within_ret | apply within_throw | apply within_lift_opt
        | apply within_key_string | apply within_date_now | apply within_requestId
        | apply within_findUnique | apply within_update | apply within_oauth
        | apply within_provider_call | blocks ]
  end.

Section Budgets.

Context (ext : External).

Lemma within_sendEmail a b tok toMail subject body :
  within (S a) b (GmailSender.sendEmail ext tok toMail subject body).
Proof. unfold GmailSender.sendEmail, interp. budget_with fail. Qed.

Lemma within_sent_text a b toMail suffix res :
  within a b (GmailSender.sent_text toMail suffix res).
Proof. unfold GmailSender.sent_text, interp, read. budget_with fail. Qed.

Lemma within_refreshAccessToken a b u r :
  within a (S b) (GmailSender.refreshAccessToken ext u r).
Proof.
  apply (within_weaken 0 1); [|lia..].
  unfold GmailSender.refreshAccessToken. budget_with fail.
Qed.

Lemma within_insert_event a b tok p :
  within (S a) b (CalendarEventCreator.insert_event ext tok p).
Proof.
  apply (within_weaken 1 0); [|lia..].
  unfold CalendarEventCreator.insert_event, CalendarEventCreator.eventResource,
    CalendarEventCreator.has_elements, CalendarEventCreator.array_map.
  budget_with fail.
Qed.

Lemma within_created_text a b headline event p :
  within a b (CalendarEventCreator.created_text ext headline event p).
Proof. unfold CalendarEventCreator.created_text. budget_with fail. Qed.

Ltac budget :=
  budget_with
    ltac:(first [ apply within_sendEmail | apply within_sent_text
                | apply within_refreshAccessToken | apply within_insert_event
                | apply within_created_text ]).

Lemma within_proactive_refresh a b u r row :
  within a (S b) (GmailSender.proactive_refresh ext u r row).
Proof.
  apply (within_weaken 0 1); [|lia..].
  unfold GmailSender.proactive_refresh, GmailSender.shouldRefreshToken. budget.
Qed.

Lemma within_send_with_retry a b u r tok toMail subject body :
  within (S (S a)) (S b) (GmailSender.send_with_retry ext u r tok toMail subject body).
Proof.
  apply (within_weaken 2 1); [|lia..].
  unfold GmailSender.send_with_retry. budget.
Qed.

Lemma gmail_calls_bounded args userId :
  within 2 2 (GmailSender.handler ext args userId).
Proof.
  unfold GmailSender.handler, GmailSender.proactive_refresh,
    GmailSender.send_with_retry, GmailSender.shouldRefreshToken, read.
  budget.
Qed.

Lemma calendar_calls_bounded args userId :
  within 2 1 (CalendarEventCreator.handler ext args userId).
Proof.
  unfold CalendarEventCreator.handler, CalendarEventCreator.insert_with_retry.
  budget.
Qed.

Lemma basic_gmail_budget args userId :
  within 1 0 (GmailSenderBasic.handler ext args userId).
Proof. unfold GmailSenderBasic.handler, interp, read. budget. Qed.

(** X8. No input and no behaviour of the provider or of the token endpoint
    makes a handler call out more than a fixed number of times. A run of
    GMAIL_SENDER makes at most two provider calls (the send and one retry)
    and at most two refresh calls (one before the send, one after a refused
    send); a run of CALENDAR_EVENT_CREATOR makes at most two provider calls
    and at most one refresh call. *)
Theorem handlers_calls_bounded args userId :
  within 2 2 (GmailSender.handler ext args userId)
  ∧ within 2 1 (CalendarEventCreator.handler ext args userId).
Proof. split; [apply gmail_calls_bounded|apply calendar_calls_bounded]. Qed.

End Budgets.

(** X9. The handler of toolsFolder/GMAIL_SENDER.ts only reads: for every input
    and every provider behaviour both tables are as they were, no refresh
    call is made, and the provider is called at most once. *)
Theorem basic_gmail_read_only ext args userId :
  keeps same_tables (GmailSenderBasic.handler ext args userId)
  ∧ within 1 0 (GmailSenderBasic.handler ext args userId).
Proof. split; [apply basic_gmail_keeps_tables|apply basic_gmail_budget]. Qed.

(** ** Handlers report failures as results *)

Lemma yields_ret {A} (P : A → Prop) a : P a → yields P (ret a).
Proof. intros H w a' w' [= <- _]. exact H. Qed.

Lemma yields_throw {A} (P : A → Prop) e : yields P (throw e).
Proof. intros w a w' [=]. Qed.

Lemma yields_bind {A B} (P : B → Prop) (m : M A) (k : A → M B) :
  (∀ a, yields P (k a)) → yields P (bind m k).
Proof.
  intros Hk w b w'. unfold bind. destruct (m w) as [[a|e] w1]; [|done].
  apply Hk.
Qed.

Lemma yields_try_catch {A} (P : A → Prop) (m : M A) h :
  yields P m → (∀ e, yields P (h e)) → yields P (try_catch m h).
Proof.
  intros Hm Hh w a w'. unfold try_catch.
  destruct (m w) as [[a'|e] w1] eqn:E.
  - intros [= <- <-]. by eapply Hm.
  - apply Hh.
Qed.

Lemma tool_result_text text : tool_result (tool_text text).
Proof. exists text. by left. Qed.

Lemma tool_result_error text : tool_result (tool_error text).
Proof. exists text. by right. Qed.

Lemma yields_bind_post {A B} (Q : A → Prop) (P : B → Prop) (m : M A) (k : A → M B) :
  yields Q m → (∀ a, Q a → yields P (k a)) → yields P (bind m k).
Proof.
  intros Hm Hk w b w'. unfold bind. destruct (m w) as [[a|e] w1] eqn:E; [|done].
  apply Hk. by eapply Hm.
Qed.

Ltac yields_with blocks :=
  repeat first
    [ apply yields_ret; cbn beta iota;
      first [apply tool_result_text|apply tool_result_error|done]
    | apply yields_throw
    | blocks
    | apply yields_bind; intros ?
    | apply yields_try_catch; [|intros ?]
    | match goal with
      | |- yields _ (match ?x with _ => _ end) => destruct x
      end ].

Lemma returns_bind {A B} (m : M A) (k : A → M B) :
  returns m → (∀ a, returns (k a)) → returns (bind m k).
Proof.
  intros Hm Hk w. unfold bind. destruct (Hm w) as (a & w1 & ->). apply Hk.
Qed.

Lemma returns_read fs k : returns (read (JObj fs) k).
Proof. intros w. by eexists _, _. Qed.

Lemma returns_findUnique u t : returns (accessKey_findUnique u t).
Proof. intros w. by eexists _, _. Qed.

Lemma returns_date_now ext : returns (date_now ext).
Proof. intros w. by eexists _, _. Qed.

Ltac returns :=
  cbv beta iota zeta;
  repeat first
    [ apply returns_ret | apply returns_read | apply returns_findUnique
    | apply returns_date_now
    | apply returns_try_catch; intros ?
    | apply returns_bind; [|intros ?]
    | match goal with
      | |- returns (match ?x with _ => _ end) => destruct x
      end ].

Section Settling.

Context (ext : External).

#[local] Arguments String.append : simpl never.
#[local] Arguments tool_error : simpl never.
#[local] Arguments tool_text : simpl never.

Lemma yields_sent_text toMail suffix res :
  yields tool_result (GmailSender.sent_text toMail suffix res).
Proof. unfold GmailSender.sent_text. yields_with fail. Qed.

Lemma yields_proactive_refresh u r row :
  yields (λ fresh, match fresh with
                   | Return result => tool_result result
                   | Next _ => True
                   end)
    (GmailSender.proactive_refresh ext u r row).
Proof. unfold GmailSender.proactive_refresh. yields_with fail. Qed.

Lemma returns_proactive_refresh u r row :
  returns (GmailSender.proactive_refresh ext u r row).
Proof.
  unfold GmailSender.proactive_refresh, GmailSender.shouldRefreshToken. returns.
Qed.

(** X10. GMAIL_SENDER called as [handleToolCall] calls it (an arguments object,
    and the [userId] of the query string or [undefined]) never rejects:
    whatever the arguments hold and whatever the provider and the token
    endpoint do, it resolves to a tool result, one text item with or without
    the error flag. Its failures reach the client as results of a 200
    answer, not as JSON-RPC errors. *)
Theorem gmail_always_settles fs user w :
  ∃ r w', GmailSender.handler ext (JObj fs) (query_value user) w = (Ok r, w')
          ∧ tool_result r.
Proof.
  assert (returns (GmailSender.handler ext (JObj fs) (query_value user))) as Hr.
  { unfold GmailSender.handler. destruct user as [u|]; simpl.
    - returns; first [apply returns_proactive_refresh|apply returns_send_with_retry].
    - do 3 (apply returns_bind; [apply returns_read|intros ?]).
      rewrite orb_true_r. apply returns_ret. }
  destruct (Hr w) as (r & w' & Hrun). exists r, w'. split; [done|].
  revert Hrun. generalize (JObj fs), (query_value user). intros args userId.
  revert w r w'. change (yields tool_result (GmailSender.handler ext args userId)).
  unfold GmailSender.handler, GmailSender.send_with_retry.
  yields_with
    ltac:(first
      [ apply yields_sent_text
      | eapply yields_bind_post;
          [apply yields_proactive_refresh|intros [result|tok] ?; cbn beta iota] ]).
Qed.

End Settling.

(** ** GMAIL_SENDER: what happens before and without a refresh *)

Section GmailEdges.

Context (ext : External).

#[local] Arguments count : simpl never.
#[local] Arguments String.append : simpl never.
#[local] Arguments tool_error : simpl never.
#[local] Arguments tool_text : simpl never.
#[local] Arguments Js.truthy : simpl never.
#[local] Arguments GmailSender.rawEmail : simpl never.
#[local] Arguments GmailSender.send_request : simpl never.
#[local] Arguments GmailSender.isAuthError : simpl never.
#[local] Arguments Z.add : simpl never.
#[local] Arguments Z.mul : simpl never.
#[local] Arguments Z.leb : simpl never.

(** A call that lacks an argument or reaches a server without its OAuth
    settings. *)
Lemma gmail_refuses_before_any_call fs userId w :
  let arg k := default JUndefined (Js.lookup_field k fs) in
  let complete :=
    Js.truthy (arg "toMail") && Js.truthy (arg "subject") && Js.truthy (arg "body")
    && Js.truthy userId in
  complete && google_oauth_configured ext = false →
  GmailSender.handler ext (JObj fs) userId w
  = (Ok (tool_error
           (if complete
            then "❌ Server configuration error: Google OAuth credentials not set."
            else "❌ Missing required parameters: toMail, subject, body, or userId.")),
     w).
Proof.
  intros arg complete. subst complete arg. cbv beta.
  unfold GmailSender.handler, bind, read. simpl.
  destruct (Js.truthy (default JUndefined (Js.lookup_field "toMail" fs)));
    destruct (Js.truthy (default JUndefined (Js.lookup_field "subject" fs)));
    destruct (Js.truthy (default JUndefined (Js.lookup_field "body" fs)));
    destruct (Js.truthy userId); simpl; try reflexivity.
  intros ->. reflexivity.
Qed.

(** A caller without a stored refresh token. *)
Lemma gmail_needs_refresh_token args to subj text u w :
  mail_args args to subj text →
  u ≠ "" →
  google_oauth_configured ext = true →
  optional_refreshToken (accessKey w !! (u, GmailSender.toolId)) = None →
  GmailSender.handler ext args (JStr u) w
  = (Ok (tool_error "❌ No refresh token found. Please authenticate Gmail first."),
     log w [EvAccessKeyFindUnique u GmailSender.toolId]).
Proof.
  intros (Hto & Hsubj & Hbody & Hto' & Hsubj' & Hbody') Hu Hconf Hnone.
  apply String.eqb_neq in Hto', Hsubj', Hbody', Hu.
  unfold GmailSender.handler. unfold bind at 1, read.
  rewrite (field_get_prop _ _ _ Hto). simpl. unfold bind at 1.
  rewrite (field_get_prop _ _ _ Hsubj). simpl. unfold bind at 1.
  rewrite (field_get_prop _ _ _ Hbody). simpl.
  unfold Js.truthy. rewrite Hto', Hsubj', Hbody', Hu, Hconf. simpl.
  unfold bind at 1. simpl. unfold bind at 1.
  unfold accessKey_findUnique, bind at 1. simpl.
  destruct (accessKey w !! (u, GmailSender.toolId)) as [row|]; simpl in *;
    [rewrite Hnone|]; reflexivity.
Qed.

(** X11. What GMAIL_SENDER refuses without sending. A call that lacks one of
    [toMail], [subject], [body] or the [userId], or that reaches a server
    without its three OAuth settings, is refused with an error result
    before anything is read or called: the world is as it was, trace
    included, and the missing argument is reported first. A caller without a
    stored refresh token is refused after the one read of the credential,
    even when an access token is stored: the provider, the token endpoint
    and the clock are not called. *)
Theorem gmail_refuses_without_sending :
  (∀ fs userId w,
     let arg k := default JUndefined (Js.lookup_field k fs) in
     let complete :=
       Js.truthy (arg "toMail") && Js.truthy (arg "subject")
       && Js.truthy (arg "body") && Js.truthy userId in
     complete && google_oauth_configured ext = false →
     GmailSender.handler ext (JObj fs) userId w
     = (Ok (tool_error
              (if complete
               then "❌ Server configuration error: Google OAuth credentials not set."
               else "❌ Missing required parameters: toMail, subject, body, or userId.")),
        w))
  ∧ (∀ args to subj text u w,
       mail_args args to subj text →
       u ≠ "" →
       google_oauth_configured ext = true →
       optional_refreshToken (accessKey w !! (u, GmailSender.toolId)) = None →
       GmailSender.handler ext args (JStr u) w
       = (Ok (tool_error "❌ No refresh token found. Please authenticate Gmail first."),
          log w [EvAccessKeyFindUnique u GmailSender.toolId])).
Proof.
  split.
  - apply gmail_refuses_before_any_call.
  - apply gmail_needs_refresh_token.
Qed.

(** X12. With a stored token that is not about to expire the handler makes one
    provider call and nothing else: a message the provider accepts is
    reported with the provider's message id, an error that is not an
    authentication error is reported as it is, and in both cases no refresh
    is attempted and both tables are as they were. *)
Theorem gmail_valid_token_single_call args to subj text u row r w :
  mail_args args to subj text →
  u ≠ "" →
  google_oauth_configured ext = true →
  accessKey w !! (u, GmailSender.toolId) = Some row →
  present (refreshToken row) = Some r →
  clock ext (count is_now (trace w)) + 5 * 60 * 1000 < expiryDate row →
  accessToken row ≠ "" →
  let request := GmailSender.send_request (GmailSender.rawEmail ext to subj text) in
  let w' := log w [EvAccessKeyFindUnique u GmailSender.toolId; EvNow;
                   EvProvider GmailSender.toolId (accessToken row) request] in
  (∀ data mid,
     provider_reply ext (count is_provider (trace w)) = ProviderOk data →
     field data "id" = Some (JStr mid) →
     GmailSender.handler ext args (JStr u) w
     = (Ok (tool_text ("✅ Email sent to " +:+ to +:+ ". Gmail Message ID: " +:+ mid)),
        w'))
  ∧ (∀ e,
       provider_reply ext (count is_provider (trace w)) = ProviderFail e →
       GmailSender.isAuthError e = false →
       GmailSender.handler ext args (JStr u) w
       = (Ok (tool_error ("❌ Failed to send email: " +:+ err_message e)), w')).
Proof.
  intros Hargs Hu Hconf Hrow Hr Hfar Htok request w'.
  assert (GmailSender.handler ext args (JStr u) w
          = GmailSender.send_with_retry ext u r (accessToken row)
              (JStr to) (JStr subj) (JStr text)
              (log w [EvAccessKeyFindUnique u GmailSender.toolId; EvNow])) as ->.
  { rewrite (handler_preamble _ _ _ _ _ _ _ _ _ Hargs Hu Hconf Hrow Hr).
    unfold bind. rewrite proactive_refresh_valid.
    - unfold log. simpl. by rewrite <- app_assoc.
    - simpl. count_norm. exact Hfar.
    - exact Htok. }
  unfold GmailSender.send_with_retry, try_catch, bind.
  rewrite sendEmail_strings, provider_call_eq. simpl. count_norm.
  split.
  - intros data mid -> Hid.
    unfold GmailSender.sent_text, bind, read, interp.
    rewrite (field_get_prop _ _ _ Hid). simpl.
    unfold w', log. simpl. by rewrite <- app_assoc.
  - intros e -> ->. unfold w', log. simpl. by rewrite <- app_assoc.
Qed.

(** X13. What a refresh leaves in the store. If the token endpoint yields an
    access token, the row of the caller is rewritten with it, with the
    refresh token (the new one if one was issued, the old one otherwise)
    and with an expiry one hour after the clock reading taken after the
    reply; the token is returned. If the endpoint rejects the refresh or
    yields no access token, the function throws an error whose message
    starts with "Token refresh failed: " and both tables are as they
    were. *)
Theorem refresh_persists_credentials u r w :
  is_Some (accessKey w !! (u, GmailSender.toolId)) →
  let reply := oauth_reply ext (count is_refresh (trace w)) in
  let run := GmailSender.refreshAccessToken ext u r w in
  match refreshed reply with
  | Some token =>
      run.1 = Ok token
      ∧ userTool run.2 = userTool w
      ∧ accessKey run.2
        = <[(u, GmailSender.toolId) :=
              {| accessToken := token;
                 refreshToken := Some (default r (reissued reply));
                 expiryDate := clock ext (count is_now (trace w)) + 3600 * 1000 |}]>
            (accessKey w)
      ∧ trace run.2 = trace w ++ [EvRefresh r; EvNow;
                                  EvAccessKeyUpdate u GmailSender.toolId]
  | None =>
      (∃ reason, run.1 = Thrown (Error ("Token refresh failed: " +:+ reason)))
      ∧ run.2 = log w [EvRefresh r]
  end.
Proof.
  intros Hrow reply run. subst run.
  destruct (refreshed reply) as [token|] eqn:Hre.
  - by rewrite (refreshAccessToken_success ext u r token w Hrow Hre).
  - subst reply.
    unfold GmailSender.refreshAccessToken, try_catch, bind, oauth_refreshAccessToken,
      bind.
    simpl. destruct (oauth_reply ext _) as [a rt|e]; simpl in *.
    + rewrite Hre. split; [by eexists|done].
    + split; [by eexists|done].
Qed.

(** X14. The handler of toolsFolder/GMAIL_SENDER.ts builds the message outside
    its [try] block. A recipient that cannot be printed (a JSON object with
    a [toString] member) makes it reject with a TypeError after the read of
    the credential, where the handler with token refresh returns an error
    result. *)
Theorem basic_gmail_rejects_unprintable fs recipient v u row w :
  Js.lookup_field "toMail" fs = Some (JObj recipient) →
  Js.lookup_field "toString" recipient = Some v →
  Js.truthy (default JUndefined (Js.lookup_field "subject" fs)) = true →
  Js.truthy (default JUndefined (Js.lookup_field "body" fs)) = true →
  u ≠ "" →
  accessKey w !! (u, GmailSenderBasic.toolId) = Some row →
  accessToken row ≠ "" →
  GmailSenderBasic.handler ext (JObj fs) (JStr u) w
  = (Thrown TypeError_primitive, log w [EvAccessKeyFindUnique u GmailSenderBasic.toolId]).
Proof.
  intros Hto Hts Hsubj Hbody Hu Hrow Htok.
  apply String.eqb_neq in Hu, Htok.
  unfold GmailSenderBasic.handler, bind, read. simpl.
  rewrite Hto, Hsubj, Hbody. simpl. unfold Js.truthy. rewrite Hu. simpl.
  rewrite Hrow. simpl. rewrite Htok. simpl.
  unfold interp. simpl. rewrite Hts. reflexivity.
Qed.

End GmailEdges.

(** ** CALENDAR_EVENT_CREATOR: validation and the calls without a refresh *)

Section CalendarEdges.

Context (ext : External).

#[local] Arguments count : simpl never.
#[local] Arguments String.append : simpl never.
#[local] Arguments tool_error : simpl never.
#[local] Arguments tool_text : simpl never.
#[local] Arguments Js.truthy : simpl never.
#[local] Arguments CalendarEventCreator.isTokenError : simpl never.
#[local] Arguments CalendarEventCreator.insert_request : simpl never.
#[local] Arguments CalendarEventCreator.insert_with_retry : simpl never.

(** X15. The arguments are validated before anything is read or called. A call
    without title, start, end or [userId] is refused; with all four and the
    two dates given as strings, a date that does not parse is refused, and
    so is an end that is not after the start (an empty interval included).
    In each case the result is an error and the world is as it was, trace
    included. *)
Theorem calendar_validates_before_any_call args p userId w :
  CalendarEventCreator.destructure args = Some p →
  let given :=
    Js.truthy (CalendarEventCreator.title p)
    && Js.truthy (CalendarEventCreator.startDateTime p)
    && Js.truthy (CalendarEventCreator.endDateTime p)
    && Js.truthy userId in
  let run := CalendarEventCreator.handler ext args userId w in
  (given = false →
   run = (Ok (tool_error
                "âŒ Missing required parameters: title, startDateTime, endDateTime, or userId."),
          w))
  ∧ (∀ s1 s2,
       given = true →
       CalendarEventCreator.startDateTime p = JStr s1 →
       CalendarEventCreator.endDateTime p = JStr s2 →
       match date_time ext (JStr s1), date_time ext (JStr s2) with
       | Some s, Some e =>
           e ≤ s →
           run = (Ok (tool_error "âŒ Start time must be before end time."), w)
       | _, _ =>
           run = (Ok (tool_error
                        "âŒ Invalid date format. Please use ISO format (e.g., '2024-06-15T10:00:00')."),
                  w)
       end).
Proof.
  intros Hp given run. subst given run.
  unfold CalendarEventCreator.handler, bind. rewrite Hp. simpl.
  split.
  - intros Hgiven.
    destruct (Js.truthy (CalendarEventCreator.title p));
      destruct (Js.truthy (CalendarEventCreator.startDateTime p));
      destruct (Js.truthy (CalendarEventCreator.endDateTime p));
      destruct (Js.truthy userId); try discriminate; reflexivity.
  - intros s1 s2 Hgiven Hs He.
    destruct (Js.truthy (CalendarEventCreator.title p));
      destruct (Js.truthy (CalendarEventCreator.startDateTime p));
      destruct (Js.truthy (CalendarEventCreator.endDateTime p));
      destruct (Js.truthy userId); try discriminate. simpl.
    rewrite Hs, He.
    destruct (date_time ext (JStr s1)) as [s|]; [|reflexivity].
    destruct (date_time ext (JStr s2)) as [e|]; [|reflexivity].
    intros Hle. apply Z.leb_le in Hle. rewrite Hle. reflexivity.
Qed.

Lemma calendar_reaches_insert args p u row w :
  event_args ext args p →
  u ≠ "" →
  google_oauth_configured ext = true →
  accessKey w !! (u, CalendarEventCreator.toolId) = Some row →
  accessToken row ≠ "" →
  CalendarEventCreator.handler ext args (JStr u) w
  = CalendarEventCreator.insert_with_retry ext u (present (refreshToken row))
      (accessToken row) p
      (log w [EvAccessKeyFindUnique u CalendarEventCreator.toolId]).
Proof.
  intros (Hp & Ht & Hs & He & (s & e & Hds & Hde & Hlt) & _) Hu Hconf Hrow Htok.
  apply String.eqb_neq in Hu, Htok.
  unfold CalendarEventCreator.handler. unfold bind at 1. rewrite Hp. simpl.
  rewrite Ht, Hs, He, Hds, Hde. unfold Js.truthy. rewrite Hu. simpl.
  assert ((e <=? s) = false) as -> by (apply Z.leb_gt; lia).
  unfold bind at 1. simpl. unfold bind at 1.
  unfold accessKey_findUnique, bind at 1. simpl.
  rewrite Hrow. simpl. rewrite Htok, Hconf. reflexivity.
Qed.

(** X16. With a stored access token the handler calls the provider once with it.
    An accepted event is reported; an error that is not a token error (any
    code but 401 and no invalid_grant in the message) is reported as it is;
    a token error is reported without a refresh when no refresh token is
    stored. In the three cases nothing else is called and both tables are
    as they were. *)
Theorem calendar_single_call args p u row w :
  event_args ext args p →
  u ≠ "" →
  google_oauth_configured ext = true →
  accessKey w !! (u, CalendarEventCreator.toolId) = Some row →
  accessToken row ≠ "" →
  ∃ request,
    let reply := provider_reply ext (count is_provider (trace w)) in
    let run := CalendarEventCreator.handler ext args (JStr u) w in
    let w' := log w [EvAccessKeyFindUnique u CalendarEventCreator.toolId;
                     EvProvider CalendarEventCreator.toolId (accessToken row)
                       request] in
    (∀ data details,
       reply = ProviderOk data →
       render_event ext data (CalendarEventCreator.attendees p) = Some details →
       run = (Ok (tool_text ("âœ… Calendar event created successfully!" +:+ details)),
              w'))
    ∧ (∀ e,
         reply = ProviderFail e →
         CalendarEventCreator.isTokenError e = false →
         run = (Ok (tool_error ("âŒ Failed to create calendar event: "
                                +:+ err_message e)), w'))
    ∧ (∀ e,
         reply = ProviderFail e →
         CalendarEventCreator.isTokenError e = true →
         present (refreshToken row) = None →
         run = (Ok (tool_error
                      "âŒ Access token expired and no refresh token found. Please re-authenticate Google Calendar."),
                w')).
Proof.
  intros Hargs Hu Hconf Hrow Htok.
  pose proof Hargs as (_ & _ & _ & _ & _ & Hm & Ha & Hmeet).
  destruct (insert_event_request ext p Hm Ha Hmeet) as [request Hins].
  exists request. cbv zeta.
  rewrite (calendar_reaches_insert _ _ _ _ _ Hargs Hu Hconf Hrow Htok).
  unfold CalendarEventCreator.insert_with_retry, try_catch, bind.
  rewrite Hins, provider_call_eq. simpl. count_norm.
  split; [|split].
  - intros data details -> Hrender.
    unfold CalendarEventCreator.created_text, bind, lift_opt. rewrite Hrender.
    unfold log. simpl. by rewrite <- app_assoc.
  - intros e -> ->. unfold log. simpl. by rewrite <- app_assoc.
  - intros e -> -> ->. unfold log. simpl. by rewrite <- app_assoc.
Qed.

End CalendarEdges.

(** ** Requests without a caller *)

Section Callers.

Context (reg : Registry).

#[local] Arguments String.append : simpl never.
#[local] Arguments tool_error : simpl never.

(** X17. routes.ts does not require a [userId]. Without one the subscription
    query carries no condition, so that the rows of every user answer it:
    tools/list lists each registered tool some user is subscribed to, and a
    tools/call passes the gate as soon as some user is subscribed to the
    tool; the handler then runs with [undefined] for the caller. *)
Theorem missing_userId_is_every_user message id w :
  let anyone := ut_toolId <$> userTool w in
  (Request message (JStr "tools/list") id →
   Routes.post_mcp reg message None w
   = (Ok (json 200
            (rpc_result
               (JObj [("tools",
                       JArr (tool_json <$> filter (λ t, name t ∈ anyone) (tools reg)))])
               id)),
      log w [EvUserToolFindMany None]))
  ∧ (∀ params T handler,
       Request message (JStr "tools/call") id →
       field message "params" = Some params →
       field params "name" = Some (JStr T) →
       T ∈ anyone →
       toolHandlers reg T = Some handler →
       let toolArgs :=
         JObj (Js.obj_remove "userId"
                 (Js.spread (default JUndefined (field params "arguments")))) in
       Routes.dispatch reg message None w
       = handler toolArgs JUndefined
           (log w [EvUserToolFindMany None; EvHandler T toolArgs JUndefined])).
Proof.
  intros anyone. split.
  - intros Hreq. rewrite (post_mcp_request _ _ _ _ _ _ Hreq).
    destruct Hreq as (_ & Hmeth & _).
    unfold Routes.dispatch, bind, read. rewrite (field_get_prop _ _ _ Hmeth).
    reflexivity.
  - intros params T handler Hreq Hp Hn Hin Hh toolArgs.
    rewrite (dispatch_tools_call _ _ _ _ _ _ _ Hreq Hp Hn).
    unfold handleToolCall, bind, read. simpl.
    rewrite lookup_obj_set_eq. simpl.
    unfold array_includes. rewrite bool_decide_eq_true_2 by exact Hin. simpl.
    rewrite Hh. simpl. rewrite obj_remove_obj_set.
    unfold log. simpl. by rewrite <- app_assoc.
Qed.

(** The two validations of the router variant. *)
Lemma v2_validates_first message userId w :
  (userId = None ∨ userId = Some "" →
   RoutesV2.post_mcp reg message userId w
   = (Ok (json 400 (rpc_error (-32602) "Missing required userId parameter"
                      (Js.or_else (RoutesV2.optional_id message) JNull))), w))
  ∧ (∀ U params id,
       userId = Some U → U ≠ "" →
       field message "method" = Some (JStr "tools/call") →
       field message "id" = Some id →
       field message "params" = Some params →
       Js.truthy params = true →
       Js.truthy (default JUndefined (Js.get_prop params "name")) = false →
       RoutesV2.post_mcp reg message userId w
       = (Ok (json 500 (rpc_error (-32603) "Missing tool name in tools/call" id)),
          w)).
Proof.
  split.
  - intros [-> | ->]; reflexivity.
  - intros U params id -> HU Hmeth Hid Hp Htruthy Hname.
    rewrite (RoutesV2_ignores_marker _ _ _ _ _ _ Hmeth Hid HU).
    unfold RoutesV2.dispatch, bind, read.
    rewrite (field_get_prop _ _ _ Hmeth). simpl.
    rewrite (field_get_prop _ _ _ Hp). simpl. rewrite Htruthy. simpl.
    destruct (Js.get_prop params "name") as [name|] eqn:Hn;
      [|destruct params; discriminate].
    simpl in Hname |- *.
    assert (Js.get_prop params "arguments" ≠ None) as Ha
      by (destruct params; discriminate).
    destruct (Js.get_prop params "arguments"); [|done]. simpl.
    rewrite Hname. reflexivity.
Qed.

(** The gate compares the requested name with the subscribed ids by strict
    equality: a name that is not a string is refused for every table, also
    when its printed form is a subscribed id. *)
Lemma tool_names_match_strictly name n args U w :
  (∀ s, name ≠ JStr s) →
  Js.to_string name = Some n →
  Js.truthy args = true →
  Js.get_prop args "userId" = Some (JStr U) →
  handleToolCall reg name args w
  = (Ok (tool_error (access_denied_text n)), log w [EvUserToolFindMany (Some U)]).
Proof.
  intros Hname Hn Hargs Hu.
  unfold handleToolCall. rewrite Hargs. simpl.
  unfold bind, read. rewrite Hu. simpl.
  assert (array_includes
            (ut_toolId <$> filter (λ r, ut_userId r = U) (userTool w)) name = false)
    as -> by (destruct name; try reflexivity; by destruct (Hname s)).
  simpl. unfold interp. rewrite Hn. reflexivity.
Qed.

(** X18. Malformed requests are answered before anything is read or called,
    and the world is as it was. routes.ts: an envelope with the marker and
    no [method] gets 400 / -32600 "missing method", echoing the [id] when
    it is truthy and [null] otherwise (so that the ids 0 and the empty string
    come back as [null]); a tools/call without [params] (absent, [null] or
    falsy) gets 500 / -32603 with the request's [id]. The router variant: a
    request without a [userId] (absent or empty) gets 400 / -32602
    whatever its body, a body that is [undefined] included; a tools/call
    whose [name] is missing or falsy gets 500 / -32603 "Missing tool
    name". *)
Theorem malformed_requests_rejected message userId w :
  (field message "jsonrpc" = Some (JStr "2.0") →
   field message "method" = None →
   Routes.post_mcp reg message userId w
   = (Ok (json 400 (rpc_error (-32600) "Invalid Request - missing method"
                      (Js.or_else (default JUndefined (field message "id")) JNull))),
      w))
  ∧ (∀ id,
       Request message (JStr "tools/call") id →
       Js.truthy (default JUndefined (field message "params")) = false →
       Routes.post_mcp reg message userId w
       = (Ok (json 500 (rpc_error (-32603) "Missing parameters for tools/call" id)),
          w))
  ∧ (userId = None ∨ userId = Some "" →
     RoutesV2.post_mcp reg message userId w
     = (Ok (json 400 (rpc_error (-32602) "Missing required userId parameter"
                        (Js.or_else (RoutesV2.optional_id message) JNull))), w))
  ∧ (∀ U params id,
       userId = Some U → U ≠ "" →
       field message "method" = Some (JStr "tools/call") →
       field message "id" = Some id →
       field message "params" = Some params →
       Js.truthy params = true →
       Js.truthy (default JUndefined (Js.get_prop params "name")) = false →
       RoutesV2.post_mcp reg message userId w
       = (Ok (json 500 (rpc_error (-32603) "Missing tool name in tools/call" id)),
          w)).
Proof.
  split; [apply missing_method_rejected|].
  split; [intros id; apply tools_call_needs_params|].
  apply v2_validates_first.
Qed.

End Callers.

Lemma subscribed_ids_projection U (rows1 rows2 : list UserTool) :
  (λ r, (ut_userId r, ut_toolId r)) <$> rows1
  = (λ r, (ut_userId r, ut_toolId r)) <$> rows2 →
  ut_toolId <$> filter (λ r, ut_userId r = U) rows1
  = ut_toolId <$> filter (λ r, ut_userId r = U) rows2.
Proof.
  revert rows2. induction rows1 as [|r1 rows1 IH]; intros [|r2 rows2] H;
    try discriminate; [done|].
  rewrite !fmap_cons in H. injection H as Hu Ht Hrest.
  rewrite !filter_cons, Hu.
  case_decide; rewrite ?fmap_cons, ?Ht; [f_equal|]; by apply IH.
Qed.

(** X19. The [authorized] column of a subscription is not consulted: two tables
    that hold the same (user, tool) pairs in the same order give a user the
    same tools, whatever the flags say. *)
Theorem authorized_flag_ignored U allTools w1 w2 :
  (λ r, (ut_userId r, ut_toolId r)) <$> userTool w1
  = (λ r, (ut_userId r, ut_toolId r)) <$> userTool w2 →
  (getToolsForUser (JStr U) allTools w1).1 = (getToolsForUser (JStr U) allTools w2).1.
Proof.
  intros H. unfold getToolsForUser, bind. simpl.
  by rewrite (subscribed_ids_projection U _ _ H).
Qed.

(** ** Classification of provider errors *)

Lemma append_cons a s t : String a s +:+ t = String a (s +:+ t).
Proof. reflexivity. Qed.

Lemma prefix_occurs sub s :
  String.prefix sub s = true ↔ ∃ rest, s = sub +:+ rest.
Proof.
  revert s. induction sub as [|a sub IH]; intros s.
  - split; [intros _; by exists s|intros _; by destruct s].
  - destruct s as [|b s]; cbn [String.prefix].
    + split; [done|]. intros [rest Hrest]. by rewrite append_cons in Hrest.
    + destruct (Ascii.ascii_dec a b) as [->|Hne].
      * rewrite IH. split; intros [rest Hrest]; exists rest.
        -- by rewrite append_cons, Hrest.
        -- rewrite append_cons in Hrest. congruence.
      * split; [done|]. intros [rest Hrest]. rewrite append_cons in Hrest.
        congruence.
Qed.

Lemma includes_occurs s sub : Js.includes s sub = true ↔ occurs_in sub s.
Proof.
  unfold occurs_in. induction s as [|a s IH]; cbn [Js.includes].
  - rewrite orb_false_r, prefix_occurs. split.
    + intros [rest Hrest]. by exists "", rest.
    + intros (before & after & H). destruct before as [|b before].
      * by exists after.
      * by rewrite append_cons in H.
  - rewrite orb_true_iff, prefix_occurs, IH. split.
    + intros [[rest Hrest]|(before & after & H)].
      * by exists "", rest.
      * exists (String a before), after. by rewrite append_cons, H.
    + intros (before & after & H). destruct before as [|b before].
      * left. by exists after.
      * right. exists before, after. rewrite append_cons in H. congruence.
Qed.

(** X20. The two handlers classify a provider error by its code and by the
    words in its message. GMAIL_SENDER refreshes on code 401 or 403 and on a
    message in which invalid_client, invalid_grant, unauthorized or
    forbidden occurs (in lower case, anywhere); CALENDAR_EVENT_CREATOR on
    code 401 and on invalid_grant only. Every error the calendar handler
    refreshes on, GMAIL_SENDER refreshes on. *)
Theorem auth_errors_characterised e :
  (GmailSender.isAuthError e = true
   ↔ err_code e = JNum 401 ∨ err_code e = JNum 403
     ∨ ∃ marker, marker ∈ ["invalid_client"; "invalid_grant"; "unauthorized";
                           "forbidden"]
                 ∧ occurs_in marker (err_message e))
  ∧ (CalendarEventCreator.isTokenError e = true
     ↔ err_code e = JNum 401 ∨ occurs_in "invalid_grant" (err_message e))
  ∧ (CalendarEventCreator.isTokenError e = true → GmailSender.isAuthError e = true).
Proof.
  assert (∀ c n, Js.is_num c n = true ↔ c = JNum n) as Hnum.
  { intros c n. destruct c; simpl; try (split; [done|intros [=]]).
    rewrite Z.eqb_eq. split; [by intros ->|by intros [= ->]]. }
  assert (∀ marker, marker ≠ "" → occurs_in marker (err_message e) →
            negb (String.eqb (err_message e) "") = true) as Hfull.
  { intros marker Hne (before & after & H).
    apply negb_true_iff, String.eqb_neq. intros Hempty. rewrite Hempty in H.
    destruct before; [|done]. destruct marker; done. }
  assert (GmailSender.isAuthError e = true
          ↔ err_code e = JNum 401 ∨ err_code e = JNum 403
            ∨ ∃ marker, marker ∈ ["invalid_client"; "invalid_grant"; "unauthorized";
                                  "forbidden"]
                        ∧ occurs_in marker (err_message e)) as Hgmail.
  { unfold GmailSender.isAuthError.
    rewrite !orb_true_iff, andb_true_iff, !orb_true_iff, !Hnum, !includes_occurs.
    split.
    - intros [[H|H]|[_ H]]; [tauto|tauto|]. right. right.
      destruct H as [[[H|H]|H]|H]; eexists; (split; [|exact H]);
        rewrite !elem_of_cons; auto.
    - intros [H|[H|(marker & Hin & Hocc)]]; [tauto|tauto|]. right.
      rewrite !elem_of_cons, elem_of_nil in Hin.
      destruct Hin as [->|[->|[->|[->|[]]]]];
        (split; [eapply Hfull; [|exact Hocc]; done|auto]). }
  assert (CalendarEventCreator.isTokenError e = true
          ↔ err_code e = JNum 401 ∨ occurs_in "invalid_grant" (err_message e))
    as Hcal.
  { unfold CalendarEventCreator.isTokenError.
    rewrite orb_true_iff, andb_true_iff, Hnum, includes_occurs.
    split; [tauto|]. intros [H|H]; [tauto|]. right. split; [|done].
    eapply Hfull; [|exact H]; done. }
  split; [exact Hgmail|]. split; [exact Hcal|].
  rewrite Hgmail, Hcal. intros [H|H]; [tauto|]. right. right.
  exists "invalid_grant". split; [rewrite !elem_of_cons; auto|done].
Qed.

(** ** The SSE endpoints *)

Lemma serve_last transport xs req :
  last (Sse.serve transport (xs ++ [Sse.PostMessages req]))
  = Some match last (connections xs), transport with
         | Some res, _ | None, Some res => Sse.Handled res req
         | None, None => Sse.NoConnection
         end.
Proof.
  revert transport. induction xs as [|x xs IH]; intros transport.
  - by destruct transport.
  - simpl. destruct x as [res|req']; simpl.
    + rewrite last_cons, IH. unfold connections. simpl. rewrite last_cons.
      by destruct (last _).
    + destruct transport as [res|]; simpl; rewrite last_cons, IH;
        unfold connections; by destruct (last _).
Qed.

(** X21. The router keeps one SSE transport for the whole process. A message
    posted to /messages is handed to the transport of the latest GET /sse,
    whoever posted it, so that an earlier connection receives nothing once
    another client has connected; before the first connection the answer
    is 400. *)
Theorem messages_go_to_latest_connection xs req :
  last (Sse.serve None (xs ++ [Sse.PostMessages req]))
  = Some match last (connections xs) with
         | Some res => Sse.Handled res req
         | None => Sse.NoConnection
         end.
Proof. rewrite serve_last. by destruct (last _). Qed.

(** ** The first Gmail sender *)

(** X22. The Gmail sender of the switch-based [handleToolCall] holds its access
    token in a constant that is the empty string: whatever the arguments,
    it never reaches the provider and leaves the world as it was, and on
    any arguments object its result is the missing-parameters text (without
    the error flag). *)
Theorem legacy_gmail_never_sends ext args w :
  (Legacy.handleGmailSender ext args w).2 = w
  ∧ (∀ fs, args = JObj fs →
     (Legacy.handleGmailSender ext args w).1
     = Ok (tool_text
             "❌ Missing required parameters: toMail, subject, body, or accessToken.")).
Proof.
  unfold Legacy.handleGmailSender, bind, read.
  split.
  - destruct args; simpl; try reflexivity; by rewrite orb_true_r.
  - intros fs ->. simpl. by rewrite orb_true_r.
Qed.

(** ** The tool loader *)

Section Loader.

Context (dir : ToolsDir).

#[local] Arguments ends_with : simpl never.

Lemma all_handled_register tool handler reg :
  all_handled reg → all_handled (register tool handler reg).
Proof.
  intros H t Ht. simpl in *. destruct (String.eqb (name t) (name tool)) eqn:E.
  - by eexists.
  - apply elem_of_app in Ht as [Ht|Ht]; [by apply H|].
    apply list_elem_of_singleton in Ht as ->. by rewrite String.eqb_refl in E.
Qed.

Lemma load_files_all_handled files reg :
  all_handled reg → all_handled (load_files dir files reg).2.
Proof.
  revert reg. induction files as [|file files IH]; intros reg H; simpl; [done|].
  destruct (negb _ && negb _); [by apply IH|].
  destruct (import dir file) as [exports|e]; [|done].
  destruct (export_tool exports) as [tool|]; [|by apply IH].
  destruct (export_handler exports) as [handler|]; [|by apply IH].
  destruct (String.eqb (name tool) ""); apply IH; [done|].
  by apply all_handled_register.
Qed.

(** The files the loop gets through without a rejected import. *)
Lemma load_files_accepted files reg :
  (∀ file e, file ∈ files → import dir file = Thrown e →
             ends_with file ".ts" || ends_with file ".js" = false) →
  load_files dir files reg
  = (Ok tt, foldl (λ r th, register th.1 th.2 r) reg (omap (accepted dir) files)).
Proof.
  revert reg. induction files as [|file files IH]; intros reg Hok; [done|].
  assert (∀ f e, f ∈ files → import dir f = Thrown e →
                 ends_with f ".ts" || ends_with f ".js" = false) as Hrest
    by (intros f e Hf; apply Hok; by right).
  cbn [load_files omap list_omap]. unfold accepted at 1.
  rewrite <- negb_orb.
  destruct (ends_with file ".ts" || ends_with file ".js") eqn:Hsrc; simpl;
    [|by apply IH].
  destruct (import dir file) as [exports|e] eqn:Himp.
  - destruct (export_tool exports) as [tool|]; [|by apply IH].
    destruct (export_handler exports) as [handler|]; [|by apply IH].
    destruct (String.eqb (name tool) ""); by apply IH.
  - rewrite (Hok file e) in Hsrc; [done|by left|done].
Qed.

Lemma load_files_app xs ys reg :
  load_files dir (xs ++ ys) reg
  = match load_files dir xs reg with
    | (Ok _, reg') => load_files dir ys reg'
    | (Thrown e, reg') => (Thrown e, reg')
    end.
Proof.
  revert reg. induction xs as [|file xs IH]; intros reg; [done|].
  cbn [app load_files].
  destruct (negb _ && negb _); [by apply IH|].
  destruct (import dir file) as [exports|e]; [|done].
  destruct (export_tool exports) as [tool|]; [|by apply IH].
  destruct (export_handler exports) as [handler|]; [|by apply IH].
  destruct (String.eqb (name tool) ""); by apply IH.
Qed.

Lemma registered_tools (loaded : list (Tool * Handler)) reg :
  tools (foldl (λ r th, register th.1 th.2 r) reg loaded) = tools reg ++ loaded.*1.
Proof.
  revert reg. induction loaded as [|th loaded IH]; intros reg.
  - simpl. by rewrite app_nil_r.
  - cbn [foldl]. rewrite IH. simpl. by rewrite <- app_assoc.
Qed.

Lemma registered_handlers (loaded : list (Tool * Handler)) reg key :
  toolHandlers (foldl (λ r th, register th.1 th.2 r) reg loaded) key
  = match last (filter (λ th, name th.1 = key) loaded) with
    | Some th => Some th.2
    | None => toolHandlers reg key
    end.
Proof.
  revert reg. induction loaded as [|th loaded IH]; intros reg; [done|].
  cbn [foldl]. rewrite IH, filter_cons. case_decide as Hkey.
  - rewrite last_cons. destruct (last _); [done|].
    simpl. rewrite <- Hkey. by rewrite String.eqb_refl.
  - destruct (last _); [done|]. simpl.
    destruct (String.eqb_spec key (name th.1)); congruence.
Qed.

(** X23. Loading keeps the registry consistent: if every listed tool had a
    handler before, every listed tool has one after, whatever the
    directory holds and even when the load fails half way. A subscriber
    who calls a listed tool therefore reaches a handler and is never told
    that the tool is not implemented. *)
Theorem loader_keeps_tools_handled reg :
  all_handled reg →
  let loaded := (loadAllTools dir reg).2 in
  all_handled loaded
  ∧ ∀ t args U w,
      t ∈ tools loaded →
      Js.truthy args = true →
      Js.get_prop args "userId" = Some (JStr U) →
      subscribed w U (name t) →
      ∃ handler,
        toolHandlers loaded (name t) = Some handler
        ∧ handleToolCall loaded (JStr (name t)) args w
          = handler (JObj (Js.obj_remove "userId" (Js.spread args))) (JStr U)
              (log w [EvUserToolFindMany (Some U);
                      EvHandler (name t)
                        (JObj (Js.obj_remove "userId" (Js.spread args))) (JStr U)]).
Proof.
  intros H loaded.
  assert (all_handled loaded) as Hall.
  { unfold loaded, loadAllTools. destruct (readdir dir) as [files|e]; [|done].
    by apply load_files_all_handled. }
  split; [exact Hall|].
  intros t args U w Ht Hargs Hu Hsub.
  destruct (Hall t Ht) as [handler Hh]. exists handler. split; [done|].
  rewrite (handleToolCall_subscribed _ _ _ U); auto. by rewrite Hh.
Qed.

(** X24. What a load that meets no rejected import registers: the tools of the
    accepted modules (source files that export a named tool and a function)
    are appended to [tools] in directory order, one entry per module, and
    the handler found under a name is the one of the last accepted module
    that exports this name. Two modules with one name thus leave two
    entries in the list and one handler. *)
Theorem loader_registers_accepted files reg :
  readdir dir = Ok files →
  (∀ file e, file ∈ files → import dir file = Thrown e →
             ends_with file ".ts" || ends_with file ".js" = false) →
  let loaded := omap (accepted dir) files in
  let run := loadAllTools dir reg in
  run.1 = Ok tt
  ∧ tools run.2 = tools reg ++ loaded.*1
  ∧ ∀ key th,
      last (filter (λ th, name th.1 = key) loaded) = Some th →
      toolHandlers run.2 key = Some th.2.
Proof.
  intros Hdir Hok loaded run. subst run. unfold loadAllTools.
  rewrite Hdir, (load_files_accepted _ _ Hok). simpl.
  split; [done|]. split; [apply registered_tools|].
  intros key th Hlast. rewrite registered_handlers. fold loaded. by rewrite Hlast.
Qed.

(** The load is not atomic: when the import of a source file is rejected,
    [loadAllTools] rejects with that error, the files after it are not
    looked at, and the modules accepted before it stay registered. *)
Lemma loader_stops_at_failed_import before file after e reg :
  readdir dir = Ok (before ++ file :: after) →
  (∀ f e', f ∈ before → import dir f = Thrown e' →
           ends_with f ".ts" || ends_with f ".js" = false) →
  ends_with file ".ts" || ends_with file ".js" = true →
  import dir file = Thrown e →
  let run := loadAllTools dir reg in
  run.1 = Thrown e
  ∧ tools run.2 = tools reg ++ (omap (accepted dir) before).*1
  ∧ ∀ key th,
      last (filter (λ th, name th.1 = key) (omap (accepted dir) before)) = Some th →
      toolHandlers run.2 key = Some th.2.
Proof.
  intros Hdir Hok Hsrc Himp run. subst run. unfold loadAllTools.
  rewrite Hdir, load_files_app, (load_files_accepted _ _ Hok).
  cbn [load_files]. rewrite <- negb_orb, Hsrc, Himp. simpl.
  split; [done|]. split; [apply registered_tools|].
  intros key th Hlast. by rewrite registered_handlers, Hlast.
Qed.

End Loader.

(** ** manage_artifact *)

Section Artifacts.

Context (ext : External) (rnd : Artifact.Rendering).

#[local] Arguments String.append : simpl never.
#[local] Arguments tool_text : simpl never.
#[local] Arguments Js.truthy : simpl never.
#[local] Arguments Artifact.artifactId : simpl never.
#[local] Arguments Artifact.answer : simpl never.

Lemma lookup_set_eq k a m : Artifact.lookup k (Artifact.set k a m) = Some a.
Proof.
  induction m as [|[k' a'] m IH]; simpl.
  - by rewrite String.eqb_refl.
  - destruct (String.eqb k k') eqn:E; simpl; by rewrite ?String.eqb_refl, ?E.
Qed.

Lemma lookup_set_ne k k' a m :
  k ≠ k' → Artifact.lookup k (Artifact.set k' a m) = Artifact.lookup k m.
Proof.
  intros Hne. induction m as [|[k0 a0] m IH]; simpl.
  - apply String.eqb_neq in Hne. by rewrite Hne.
  - destruct (String.eqb k' k0) eqn:E; simpl.
    + apply String.eqb_eq in E as <-. apply String.eqb_neq in Hne. by rewrite Hne.
    + by rewrite IH.
Qed.

Lemma lookup_delete_ne k k' m :
  k ≠ k' → Artifact.lookup k (Artifact.delete k' m) = Artifact.lookup k m.
Proof.
  intros Hne. induction m as [|[k0 a0] m IH]; simpl; [done|].
  destruct (String.eqb k' k0) eqn:E; simpl.
  - apply String.eqb_eq in E as <-. apply String.eqb_neq in Hne. by rewrite Hne.
  - by rewrite IH.
Qed.

Lemma lookup_Some_elem k a m : Artifact.lookup k m = Some a → (k, a) ∈ m.
Proof.
  induction m as [|[k0 a0] m IH]; simpl; [done|].
  destruct (String.eqb_spec k k0) as [->|Hne].
  - intros [= ->]. by left.
  - intros H. right. by apply IH.
Qed.

Lemma lookup_None_keys k m : Artifact.lookup k m = None → k ∉ m.*1.
Proof.
  induction m as [|[k0 a0] m IH]; simpl; [intros _; apply not_elem_of_nil|].
  destruct (String.eqb_spec k k0) as [->|Hne]; [done|].
  intros H. apply not_elem_of_cons. split; [done|by apply IH].
Qed.

Lemma lookup_delete_eq k m :
  NoDup m.*1 → Artifact.lookup k (Artifact.delete k m) = None.
Proof.
  induction m as [|[k0 a0] m IH]; simpl; [done|].
  intros Hnd. apply NoDup_cons in Hnd as [Hk0 Hnd].
  destruct (String.eqb_spec k k0) as [->|Hne]; simpl.
  - destruct (Artifact.lookup k0 m) as [a|] eqn:E; [|done].
    apply lookup_Some_elem in E. destruct Hk0.
    apply list_elem_of_fmap. by exists (k0, a).
  - apply String.eqb_neq in Hne. rewrite Hne. by apply IH.
Qed.

Lemma elem_of_set k a m x : x ∈ Artifact.set k a m → x = (k, a) ∨ x ∈ m.
Proof.
  induction m as [|[k0 a0] m IH]; simpl.
  - intros H. apply list_elem_of_singleton in H. by left.
  - destruct (String.eqb k k0); rewrite !elem_of_cons; tauto.
Qed.

Lemma elem_of_delete k m x : x ∈ Artifact.delete k m → x ∈ m.
Proof.
  induction m as [|[k0 a0] m IH]; simpl; [done|].
  destruct (String.eqb k k0); rewrite !elem_of_cons; tauto.
Qed.

Lemma keys_set k a m :
  (Artifact.set k a m).*1
  = match Artifact.lookup k m with
    | Some _ => m.*1
    | None => m.*1 ++ [k]
    end.
Proof.
  induction m as [|[k0 a0] m IH]; [done|].
  cbn [Artifact.set Artifact.lookup].
  destruct (String.eqb_spec k k0) as [->|Hne]; [done|].
  rewrite !fmap_cons, IH. by destruct (Artifact.lookup k m).
Qed.

Lemma NoDup_set k a m : NoDup m.*1 → NoDup (Artifact.set k a m).*1.
Proof.
  intros Hnd. rewrite keys_set.
  destruct (Artifact.lookup k m) eqn:E; [done|].
  apply NoDup_app. split; [done|]. split; [|apply NoDup_singleton].
  intros x Hx Hin. apply list_elem_of_singleton in Hin as ->.
  by apply (lookup_None_keys _ _ E).
Qed.

Lemma NoDup_delete k m : NoDup m.*1 → NoDup (Artifact.delete k m).*1.
Proof.
  induction m as [|[k0 a0] m IH]; simpl; [done|].
  intros Hnd. apply NoDup_cons in Hnd as [Hk0 Hnd].
  destruct (String.eqb k k0); [done|]. simpl. apply NoDup_cons. split; [|by apply IH].
  intros Hin. apply Hk0. apply list_elem_of_fmap in Hin as [[k1 a1] [-> Hin]].
  apply list_elem_of_fmap. exists (k1, a1). split; [done|].
  by eapply elem_of_delete.
Qed.

Lemma get_Some id m a :
  Artifact.get id m = Some a →
  id = JStr (Artifact.key id) ∧ Artifact.lookup (Artifact.key id) m = Some a.
Proof. destruct id; try discriminate. by simpl. Qed.

Lemma denied_permitted caller a :
  Artifact.denied caller a = false ↔ permitted caller a.
Proof.
  unfold Artifact.denied, permitted.
  destruct (present caller) as [u|]; [|split; auto].
  destruct (present (Artifact.userId a)) as [owner|]; [|split; auto].
  rewrite negb_false_iff, String.eqb_eq. split.
  - intros ->. auto.
  - intros [H|[H|H]]; congruence.
Qed.

Lemma visible_permitted caller a :
  Artifact.visible caller a = true ↔ permitted caller a.
Proof.
  unfold Artifact.visible, permitted.
  destruct (present caller) as [u|]; [|split; auto].
  destruct (present (Artifact.userId a)) as [owner|]; [|split; auto].
  rewrite String.eqb_eq. split.
  - intros ->. auto.
  - intros [H|[H|H]]; congruence.
Qed.

(** The state a run leaves, case by case. *)
Lemma handler_store args caller st :
  let st' := (Artifact.handler ext rnd args caller st).2 in
  Artifact.artifacts st' = Artifact.artifacts st
  ∨ (∃ a, Artifact.id a = Artifact.artifactId ext st
          ∧ Artifact.userId a = caller
          ∧ Artifact.artifacts st'
            = Artifact.set (Artifact.artifactId ext st) a (Artifact.artifacts st))
  ∨ (∃ k a a', Artifact.lookup k (Artifact.artifacts st) = Some a
               ∧ permitted caller a
               ∧ Artifact.id a' = Artifact.id a
               ∧ Artifact.createdAt a' = Artifact.createdAt a
               ∧ Artifact.userId a' = Artifact.userId a
               ∧ Artifact.artifacts st' = Artifact.set k a' (Artifact.artifacts st))
  ∨ (∃ k a, Artifact.lookup k (Artifact.artifacts st) = Some a
            ∧ permitted caller a
            ∧ Artifact.artifacts st' = Artifact.delete k (Artifact.artifacts st)).
Proof.
  unfold Artifact.handler. cbv zeta.
  destruct (Js.is_str _ "create").
  { destruct (negb _ || negb _ || negb _); [by left|].
    right. left. eexists. split; [|split]. 3: (simpl; reflexivity).
    all: reflexivity. }
  destruct (Js.is_str _ "update").
  { destruct (negb _); [by left|].
    destruct (Artifact.get _ _) as [a|] eqn:Hget; [|by left].
    apply get_Some in Hget as [_ Hget].
    destruct (Artifact.denied caller a) eqn:Hd; [by left|].
    apply denied_permitted in Hd.
    right. right. left. eexists _, a, _. split; [exact Hget|]. split; [exact Hd|].
    split; [|split; [|split]]. 4: (simpl; reflexivity). all: reflexivity. }
  destruct (Js.is_str _ "get").
  { destruct (negb _); [by left|]. destruct (Artifact.get _ _); by left. }
  destruct (Js.is_str _ "delete").
  { destruct (negb _); [by left|].
    destruct (Artifact.get _ _) as [a|] eqn:Hget; [|by left].
    apply get_Some in Hget as [_ Hget].
    destruct (Artifact.denied caller a) eqn:Hd; [by left|].
    apply denied_permitted in Hd.
    right. right. right. eexists _, a. split; [exact Hget|]. split; [exact Hd|].
    simpl. reflexivity. }
  destruct (Js.is_str _ "list"); by left.
Qed.

(** X25. A caller cannot change or delete what belongs to someone else: an
    artifact owned by another user is in the store after the run as it was
    before, whatever the action and the arguments, as long as a created
    artifact does not get the id of that artifact. *)
Theorem artifact_owner_guard args caller u k a owner st :
  present caller = Some u →
  Artifact.lookup k (Artifact.artifacts st) = Some a →
  present (Artifact.userId a) = Some owner →
  owner ≠ u →
  Artifact.artifactId ext st ≠ k →
  Artifact.lookup k (Artifact.artifacts (Artifact.handler ext rnd args caller st).2)
  = Some a.
Proof.
  intros Hu Ha Howner Hne Hfresh.
  assert (¬ permitted caller a) as Hnot.
  { unfold permitted. rewrite Hu, Howner. intros [H|[H|H]]; congruence. }
  destruct (handler_store args caller st)
    as [->|[(a' & _ & _ & ->)|[(k' & b & b' & Hb & Hperm & _ & _ & _ & ->)
                              |(k' & b & Hb & Hperm & ->)]]].
  - done.
  - by rewrite lookup_set_ne.
  - rewrite lookup_set_ne; [done|]. intros <-. congruence.
  - rewrite lookup_delete_ne; [done|]. intros <-. congruence.
Qed.

(** X26. The store stays well filed: keys stay unique and every artifact stays
    under its own id. An artifact that is still stored after a run has the
    id, the creation date and the owner it had, so that no action moves an
    artifact to another owner (a created artifact that gets an id in use
    excepted). *)
Theorem artifact_store_invariants args caller st :
  well_filed st →
  let st' := (Artifact.handler ext rnd args caller st).2 in
  well_filed st'
  ∧ ∀ k a a',
      Artifact.artifactId ext st ≠ k →
      Artifact.lookup k (Artifact.artifacts st) = Some a →
      Artifact.lookup k (Artifact.artifacts st') = Some a' →
      Artifact.id a' = Artifact.id a
      ∧ Artifact.createdAt a' = Artifact.createdAt a
      ∧ Artifact.userId a' = Artifact.userId a.
Proof.
  intros [Hnd Hid] st'. subst st'. unfold well_filed.
  destruct (handler_store args caller st)
    as [->|[(b & Hbid & _ & ->)|[(k' & b & b' & Hb & _ & Hi & Hc & Ho & ->)
                               |(k' & b & Hb & _ & ->)]]].
  - split; [done|]. intros k a a' _ Ha Ha'. by simplify_eq.
  - split; [split|].
    + by apply NoDup_set.
    + intros k a Hin. apply elem_of_set in Hin as [[= -> ->]|Hin]; auto.
    + intros k a a' Hk Ha Ha'. rewrite lookup_set_ne in Ha' by done. by simplify_eq.
  - split; [split|].
    + by apply NoDup_set.
    + intros k a Hin. apply elem_of_set in Hin as [[= -> ->]|Hin]; [|auto].
      rewrite Hi. apply Hid. by apply lookup_Some_elem.
    + intros k a a' _ Ha Ha'. destruct (decide (k = k')) as [->|Hne].
      * rewrite lookup_set_eq in Ha'. by simplify_eq.
      * rewrite lookup_set_ne in Ha' by done. by simplify_eq.
  - split; [split|].
    + by apply NoDup_delete.
    + intros k a Hin. apply Hid. by eapply elem_of_delete.
    + intros k a a' _ Ha Ha'. destruct (decide (k = k')) as [->|Hne].
      * by rewrite lookup_delete_eq in Ha'.
      * rewrite lookup_delete_ne in Ha' by done. by simplify_eq.
Qed.

Lemma append_assoc_ (x y z : string) : (x +:+ y) +:+ z = x +:+ y +:+ z.
Proof. induction x as [|c x IH]; [done|]. by rewrite !append_cons, IH. Qed.

Lemma occurs_here s t : occurs_in s (s +:+ t).
Proof. by exists "", t. Qed.

Lemma occurs_skip s x t : occurs_in s t → occurs_in s (x +:+ t).
Proof.
  intros (before & after & ->). exists (x +:+ before), after.
  by rewrite append_assoc_.
Qed.

Lemma details_text_prefix prefix a :
  Artifact.details_text rnd prefix a
  = match Artifact.details_text rnd "" a with
    | Ok body => Ok (prefix +:+ body)
    | Thrown e => Thrown e
    end.
Proof.
  unfold Artifact.details_text, Artifact.then_.
  repeat (destruct (Artifact.print _); [|done]). done.
Qed.

(** X27. Reading is not guarded: [get] answers every caller, the owner or not,
    with the same text after the caller's prefix and changes nothing. When
    title, type, language and content are strings (or no language is set)
    that text shows the title and the full content. *)
Theorem artifact_get_ignores_owner args k a st :
  Js.lookup_field "action" args = Some (JStr "get") →
  Js.lookup_field "id" args = Some (JStr k) →
  k ≠ "" →
  Artifact.lookup k (Artifact.artifacts st) = Some a →
  ∃ body,
    (∀ caller,
       Artifact.handler ext rnd args caller st
       = (tool_text (Artifact.userPrefix caller +:+ body), st))
    ∧ ∀ t ty c,
        Artifact.title a = JStr t →
        Artifact.type a = JStr ty →
        Artifact.language a = JUndefined ∨ (∃ l, Artifact.language a = JStr l) →
        Artifact.content a = JStr c →
        occurs_in t body ∧ occurs_in c body.
Proof.
  intros Haction Hid Hk Ha. apply String.eqb_neq in Hk.
  exists (match Artifact.details_text rnd "" a with
          | Ok body => body
          | Thrown e => "Error: " +:+ err_message e
          end).
  split.
  - intros caller. unfold Artifact.handler. rewrite Haction, Hid. simpl.
    unfold Js.truthy. rewrite Hk. simpl. rewrite Ha, details_text_prefix.
    by destruct (Artifact.details_text rnd "" a).
  - intros t ty c Ht Hty Hl Hc.
    unfold Artifact.details_text, Artifact.then_, Artifact.print.
    rewrite Ht, Hty, Hc.
    unfold Js.or_else.
    destruct Hl as [->|[l ->]]; simpl;
      try destruct (Js.truthy (JStr l)); simpl;
      split; repeat first [apply occurs_here|apply occurs_skip].
Qed.

Lemma elem_of_insert a b xs : b ∈ Artifact.insert a xs ↔ b = a ∨ b ∈ xs.
Proof.
  induction xs as [|x xs IH]; simpl.
  - rewrite list_elem_of_singleton, elem_of_nil. tauto.
  - destruct (_ <=? _); rewrite !elem_of_cons; [tauto|]. rewrite IH. tauto.
Qed.

Lemma elem_of_sort b xs : b ∈ Artifact.sort xs ↔ b ∈ xs.
Proof.
  induction xs as [|x xs IH]; simpl; [done|].
  rewrite elem_of_insert, elem_of_cons, IH. tauto.
Qed.

Lemma length_insert a xs : length (Artifact.insert a xs) = S (length xs).
Proof.
  induction xs as [|x xs IH]; simpl; [done|].
  destruct (_ <=? _); simpl; by rewrite ?IH.
Qed.

Lemma length_sort xs : length (Artifact.sort xs) = length xs.
Proof.
  induction xs as [|x xs IH]; simpl; [done|]. by rewrite length_insert, IH.
Qed.

Lemma descending_insert a xs : descending xs → descending (Artifact.insert a xs).
Proof.
  induction xs as [|x xs IH]; simpl; [done|].
  intros [Hall Hdesc]. destruct (Z.leb_spec (Artifact.updatedAt x) (Artifact.updatedAt a)).
  - simpl. split; [|done]. constructor; [done|].
    eapply Forall_impl; [exact Hall|]. simpl. lia.
  - simpl. split; [|by apply IH].
    apply Forall_forall. intros b Hb. apply elem_of_insert in Hb as [->|Hb]; [lia|].
    by eapply Forall_forall in Hall.
Qed.

Lemma descending_sort xs : descending (Artifact.sort xs).
Proof. induction xs as [|x xs IH]; simpl; [done|]. by apply descending_insert. Qed.

(** X28. What [list] shows. An artifact is listed exactly when it is stored and
    the caller is its owner, or it has no owner, or there is no caller; a
    request without [userId] is therefore shown the artifacts of every
    user. The list is ordered by the time of the last update, latest
    first, and the store is not changed. *)
Theorem artifact_list_visibility args caller st :
  Js.lookup_field "action" args = Some (JStr "list") →
  let shown := Artifact.userArtifacts caller st in
  Artifact.handler ext rnd args caller st
  = (Artifact.answer (Artifact.userPrefix caller)
       (Artifact.list_text rnd (Artifact.userPrefix caller) shown), st)
  ∧ (∀ a, a ∈ shown ↔ a ∈ (Artifact.artifacts st).*2 ∧ permitted caller a)
  ∧ descending shown
  ∧ (present caller = None → length shown = length (Artifact.artifacts st)).
Proof.
  intros Haction shown. subst shown. split; [|split; [|split]].
  - unfold Artifact.handler. by rewrite Haction.
  - intros a. unfold Artifact.userArtifacts.
    rewrite elem_of_sort, list_elem_of_filter, visible_permitted. tauto.
  - apply descending_sort.
  - intros Hnone. unfold Artifact.userArtifacts. rewrite length_sort.
    rewrite <- (length_fmap snd (Artifact.artifacts st)).
    f_equal. induction ((Artifact.artifacts st).*2) as [|a xs IH]; [done|].
    rewrite filter_cons, decide_True; [by rewrite IH|].
    unfold Artifact.visible. by rewrite Hnone.
Qed.

Lemma artifactId_truthy st : Js.truthy (JStr (Artifact.artifactId ext st)) = true.
Proof. reflexivity. Qed.

(** X29. Create then get. A create with a title, a type and a content files the
    new artifact under the id it prints in its answer, with the caller as
    owner and the fields as given; every other entry of the store is as it
    was; and a [get] of that id, by any reader, answers with the details of
    this artifact. *)
Theorem artifact_create_then_get args t ty c caller st :
  Js.lookup_field "action" args = Some (JStr "create") →
  Js.lookup_field "title" args = Some (JStr t) →
  Js.lookup_field "type" args = Some (JStr ty) →
  Js.lookup_field "content" args = Some (JStr c) →
  t ≠ "" → ty ≠ "" → c ≠ "" →
  let created := Artifact.handler ext rnd args caller st in
  let newid := Artifact.artifactId ext st in
  ∃ a,
    Artifact.lookup newid (Artifact.artifacts created.2) = Some a
    ∧ Artifact.id a = newid
    ∧ Artifact.title a = JStr t
    ∧ Artifact.type a = JStr ty
    ∧ Artifact.content a = JStr c
    ∧ Artifact.userId a = caller
    ∧ (∀ k, k ≠ newid →
            Artifact.lookup k (Artifact.artifacts created.2)
            = Artifact.lookup k (Artifact.artifacts st))
    ∧ ∀ reader,
        Artifact.handler ext rnd [("action", JStr "get"); ("id", JStr newid)]
          reader created.2
        = (Artifact.answer (Artifact.userPrefix reader)
             (Artifact.details_text rnd (Artifact.userPrefix reader) a),
           created.2).
Proof.
  intros Haction Ht Hty Hc Ht' Hty' Hc' created newid. subst created newid.
  apply String.eqb_neq in Ht', Hty', Hc'.
  assert (∃ a st', Artifact.handler ext rnd args caller st
                   = (Artifact.answer (Artifact.userPrefix caller)
                        (Artifact.created_text rnd (Artifact.userPrefix caller) a),
                      st')
                   ∧ Artifact.artifacts st'
                     = Artifact.set (Artifact.artifactId ext st) a
                         (Artifact.artifacts st)
                   ∧ Artifact.id a = Artifact.artifactId ext st
                   ∧ Artifact.title a = JStr t
                   ∧ Artifact.type a = JStr ty
                   ∧ Artifact.content a = JStr c
                   ∧ Artifact.userId a = caller)
    as (a & st' & -> & Hst' & Hfields).
  { unfold Artifact.handler. rewrite Haction, Ht, Hty, Hc. simpl.
    unfold Js.truthy. rewrite Ht', Hty', Hc'. simpl.
    eexists _, _. split; [reflexivity|]. by repeat split. }
  simpl. rewrite Hst'. exists a.
  split; [apply lookup_set_eq|].
  destruct Hfields as (? & ? & ? & ? & ?). do 5 (split; [done|]). split.
  - intros k Hk. by apply lookup_set_ne.
  - intros reader. unfold Artifact.handler. simpl.
    rewrite ?artifactId_truthy. simpl. by rewrite Hst', lookup_set_eq.
Qed.

(** X30. Delete then get. In a well filed store, a delete the caller is
    permitted to make removes the artifact and nothing else, and a [get] of
    its id, by any reader, then answers that the artifact is not found. *)
Theorem artifact_delete_then_get args k a caller st :
  well_filed st →
  Js.lookup_field "action" args = Some (JStr "delete") →
  Js.lookup_field "id" args = Some (JStr k) →
  k ≠ "" →
  Artifact.lookup k (Artifact.artifacts st) = Some a →
  permitted caller a →
  let deleted := Artifact.handler ext rnd args caller st in
  Artifact.lookup k (Artifact.artifacts deleted.2) = None
  ∧ (∀ k', k' ≠ k →
           Artifact.lookup k' (Artifact.artifacts deleted.2)
           = Artifact.lookup k' (Artifact.artifacts st))
  ∧ ∀ reader,
      Artifact.handler ext rnd [("action", JStr "get"); ("id", JStr k)]
        reader deleted.2
      = (tool_text (Artifact.userPrefix reader +:+ "Error: Artifact with ID '"
                    +:+ k +:+ "' not found"),
         deleted.2).
Proof.
  intros [Hnd _] Haction Hid Hk Ha Hperm deleted. subst deleted.
  apply String.eqb_neq in Hk. apply denied_permitted in Hperm.
  assert (∃ r st', Artifact.handler ext rnd args caller st = (r, st')
                   ∧ Artifact.artifacts st'
                     = Artifact.delete k (Artifact.artifacts st))
    as (r & st' & -> & Hst').
  { unfold Artifact.handler. rewrite Haction, Hid. simpl.
    unfold Js.truthy. rewrite Hk. simpl. rewrite Ha, Hperm.
    eexists _, _. split; reflexivity. }
  simpl. rewrite Hst'.
  split; [by apply lookup_delete_eq|]. split.
  - intros k' Hk'. by apply lookup_delete_ne.
  - intros reader. unfold Artifact.handler. simpl.
    unfold Js.truthy. rewrite Hk. simpl. by rewrite Hst', lookup_delete_eq.
Qed.

End Artifacts.

(** ** The further statements at work on the example deployment *)

Lemma parse_error_only_without_envelope_witness :
  Routes.post_mcp Demo.reg JUndefined (Some "u1") Demo.world
  = (Ok (json 400 (rpc_error (-32700) "Parse error" JNull)), Demo.world).
Proof.
  apply (proj1 (parse_error_only_without_envelope Demo.reg JUndefined (Some "u1")
                  Demo.world)).
  by left.
Defined.

Lemma malformed_requests_rejected_witness :
  Routes.post_mcp Demo.reg Demo.no_method (Some "u1") Demo.world
  = (Ok (json 400 (rpc_error (-32600) "Invalid Request - missing method" JNull)),
     Demo.world)
  ∧ Routes.post_mcp Demo.reg Demo.no_params (Some "u1") Demo.world
    = (Ok (json 500 (rpc_error (-32603) "Missing parameters for tools/call"
                       (JNum 9))),
       Demo.world)
  ∧ RoutesV2.post_mcp Demo.reg Demo.list_tools None Demo.world
    = (Ok (json 400 (rpc_error (-32602) "Missing required userId parameter"
                       (JNum 8))),
       Demo.world).
Proof.
  split; [|split].
  - apply (proj1 (malformed_requests_rejected Demo.reg Demo.no_method (Some "u1")
                    Demo.world)); reflexivity.
  - apply (proj1 (proj2 (malformed_requests_rejected Demo.reg Demo.no_params
                           (Some "u1") Demo.world)) (JNum 9)).
    + repeat split.
    + reflexivity.
  - apply (proj1 (proj2 (proj2 (malformed_requests_rejected Demo.reg
                                  Demo.list_tools None Demo.world)))).
    by left.
Defined.

Lemma tool_arguments_without_userId_witness :
  let sent := JObj [("userId", JStr "intruder"); ("city", JStr "Oslo")] in
  Js.lookup_field "city"
    (Js.obj_remove "userId"
       (Js.spread (JObj (Js.obj_set "userId" (JStr "u1") (Js.spread sent)))))
  = Js.lookup_field "city" (Js.spread sent).
Proof.
  intros sent.
  apply (proj1 (proj2 (proj2 (tool_arguments_without_userId sent (JStr "u1"))))).
  discriminate.
Defined.

Lemma handler_outcome_relayed_witness :
  Routes.post_mcp Demo.reg (Demo.call "get_time" (JObj [])) (Some "u1") Demo.world
  = (Ok (json 200 (rpc_result (tool_text "Current time: 10:00") (JNum 7))),
     log Demo.world [EvUserToolFindMany (Some "u1");
                     EvHandler "get_time" (JObj []) (JStr "u1")]).
Proof.
  refine (proj1 (handler_outcome_relayed Demo.reg (Demo.call "get_time" (JObj []))
                   (JObj [("name", JStr "get_time"); ("arguments", JObj [])])
                   (JNum 7) "u1" "get_time" Demo.get_time Demo.world
                   _ _ _ _ _ _ _)).
  - repeat split.
  - reflexivity.
  - reflexivity.
  - discriminate.
  - discriminate.
  - apply array_includes_subscribed. vm_compute. reflexivity.
  - reflexivity.
Defined.

Lemma router_writes_through_handlers_only_witness :
  keeps same_tables
    (Routes.post_mcp Demo.reg (Demo.call "get_time" (JObj [])) (Some "u1")).
Proof.
  refine (proj1 (router_writes_through_handlers_only same_tables Demo.reg
                   (Demo.call "get_time" (JObj [])) (Some "u1")
                   same_tables_frame _)).
  intros key handler args u. unfold Demo.reg. simpl.
  destruct (String.eqb key "get_time"); [|discriminate].
  intros [= <-] w. split; reflexivity.
Defined.

Lemma gmail_refuses_without_sending_witness :
  GmailSender.handler Demo.refresh_ok (JObj []) JUndefined Demo.world
  = (Ok (tool_error
           "❌ Missing required parameters: toMail, subject, body, or userId."),
     Demo.world)
  ∧ GmailSender.handler Demo.refresh_ok Demo.mail (JStr "u2") Demo.world
    = (Ok (tool_error "❌ No refresh token found. Please authenticate Gmail first."),
       log Demo.world [EvAccessKeyFindUnique "u2" "GMAIL_SENDER"]).
Proof.
  split.
  - apply (proj1 (gmail_refuses_without_sending Demo.refresh_ok) [] JUndefined
             Demo.world).
    reflexivity.
  - apply (proj2 (gmail_refuses_without_sending Demo.refresh_ok) Demo.mail
             "a@example.org" "hello" "see you" "u2" Demo.world).
    + repeat split; discriminate.
    + discriminate.
    + reflexivity.
    + reflexivity.
Defined.

Lemma gmail_valid_token_single_call_witness :
  GmailSender.handler Demo.accepting Demo.mail (JStr "u1") Demo.world
  = (Ok (tool_text "✅ Email sent to a@example.org. Gmail Message ID: m-1"),
     log Demo.world
       [EvAccessKeyFindUnique "u1" "GMAIL_SENDER"; EvNow;
        EvProvider "GMAIL_SENDER" "old-token"
          (GmailSender.send_request
             (GmailSender.rawEmail Demo.accepting "a@example.org" "hello"
                "see you"))]).
Proof.
  refine (proj1 (gmail_valid_token_single_call Demo.accepting Demo.mail
                   "a@example.org" "hello" "see you" "u1" Demo.stored "refresh-0"
                   Demo.world _ _ _ _ _ _ _)
            (JObj [("id", JStr "m-1")]) "m-1" _ _).
  - repeat split; discriminate.
  - discriminate.
  - reflexivity.
  - reflexivity.
  - reflexivity.
  - vm_compute. reflexivity.
  - discriminate.
  - reflexivity.
  - reflexivity.
Defined.

Lemma refresh_persists_credentials_witness :
  (GmailSender.refreshAccessToken Demo.refresh_ok "u1" "refresh-0" Demo.world).1
  = Ok "new-token".
Proof.
  pose proof (refresh_persists_credentials Demo.refresh_ok "u1" "refresh-0"
                Demo.world) as H.
  simpl in H. apply H. by eexists.
Defined.

Lemma basic_gmail_rejects_unprintable_witness :
  GmailSenderBasic.handler Demo.accepting (JObj Demo.unprintable_mail) (JStr "u1")
    Demo.world
  = (Thrown TypeError_primitive,
     log Demo.world [EvAccessKeyFindUnique "u1" "GMAIL_SENDER"]).
Proof.
  apply (basic_gmail_rejects_unprintable Demo.accepting Demo.unprintable_mail
           [("toString", JNum 1)] (JNum 1) "u1" Demo.stored Demo.world).
  - reflexivity.
  - reflexivity.
  - reflexivity.
  - reflexivity.
  - discriminate.
  - reflexivity.
  - discriminate.
Defined.

Lemma calendar_validates_before_any_call_witness :
  CalendarEventCreator.handler Demo.accepting (JObj [("title", JStr "sync")])
    (JStr "u1") Demo.world
  = (Ok (tool_error
           "âŒ Missing required parameters: title, startDateTime, endDateTime, or userId."),
     Demo.world).
Proof.
  refine (proj1 (calendar_validates_before_any_call Demo.accepting
                   (JObj [("title", JStr "sync")]) _ (JStr "u1") Demo.world
                   eq_refl) _).
  reflexivity.
Defined.

Lemma calendar_single_call_witness :
  ∃ request,
    CalendarEventCreator.handler Demo.refusing Demo.meeting (JStr "u1") Demo.world
    = (Ok (tool_error "âŒ Failed to create calendar event: Forbidden"),
       log Demo.world
         [EvAccessKeyFindUnique "u1" "CALENDAR_EVENT_CREATOR";
          EvProvider "CALENDAR_EVENT_CREATOR" "old-token" request]).
Proof.
  destruct (calendar_single_call Demo.refusing Demo.meeting
              (default (CalendarEventCreator.mkParams JUndefined JUndefined
                          JUndefined JUndefined JUndefined JUndefined JUndefined
                          JUndefined JUndefined JUndefined JUndefined)
                 (CalendarEventCreator.destructure Demo.meeting))
              "u1" Demo.stored Demo.world)
    as (request & _ & Hfail & _).
  - split; [reflexivity|]. repeat split.
    + exists 1718445600000, 1718449200000. repeat split.
    + eexists. reflexivity.
    + eexists. reflexivity.
  - discriminate.
  - reflexivity.
  - reflexivity.
  - discriminate.
  - exists request. apply (Hfail Demo.forbidden); reflexivity.
Defined.

Lemma missing_userId_is_every_user_witness :
  Routes.post_mcp Demo.reg Demo.list_tools None Demo.world
  = (Ok (json 200
           (rpc_result
              (JObj [("tools",
                      JArr (tool_json
                              <$> filter (λ t, name t ∈ ut_toolId <$> userTool Demo.world)
                                    (tools Demo.reg)))])
              (JNum 8))),
     log Demo.world [EvUserToolFindMany None]).
Proof.
  apply (proj1 (missing_userId_is_every_user Demo.reg Demo.list_tools (JNum 8)
                  Demo.world)).
  repeat split.
Defined.

Lemma authorized_flag_ignored_witness :
  (getToolsForUser (JStr "u1") (tools Demo.reg) Demo.world).1
  = (getToolsForUser (JStr "u1") (tools Demo.reg) Demo.flipped).1.
Proof.
  apply (authorized_flag_ignored "u1" (tools Demo.reg) Demo.world Demo.flipped).
  reflexivity.
Defined.

Lemma auth_errors_characterised_witness :
  GmailSender.isAuthError Demo.forbidden = true
  ∧ ¬ CalendarEventCreator.isTokenError Demo.forbidden = true.
Proof.
  split.
  - apply (proj1 (auth_errors_characterised Demo.forbidden)). right. by left.
  - discriminate.
Defined.

Lemma legacy_gmail_never_sends_witness :
  (Legacy.handleGmailSender Demo.accepting Demo.mail Demo.world).1
  = Ok (tool_text
          "❌ Missing required parameters: toMail, subject, body, or accessToken.").
Proof.
  refine (proj2 (legacy_gmail_never_sends Demo.accepting Demo.mail Demo.world) _ _).
  reflexivity.
Defined.

Lemma loader_keeps_tools_handled_witness :
  all_handled (loadAllTools Demo.broken_dir Demo.empty_registry).2.
Proof.
  apply (loader_keeps_tools_handled Demo.broken_dir Demo.empty_registry).
  intros t Ht. by apply elem_of_nil in Ht.
Defined.

Lemma loader_registers_accepted_witness :
  tools (loadAllTools Demo.tools_dir Demo.empty_registry).2
  = [mkTool "get_time" "Get current time" (JObj [])].
Proof.
  refine (proj1 (proj2 (loader_registers_accepted Demo.tools_dir
                          ["get_time.ts"; "README.md"] Demo.empty_registry
                          eq_refl _))).
  intros file e Hin. rewrite !elem_of_cons, elem_of_nil in Hin.
  destruct Hin as [->|[->|[]]]; [discriminate|reflexivity].
Defined.

Lemma artifact_owner_guard_witness :
  Artifact.lookup "artifact_1"
    (Artifact.artifacts
       (Artifact.handler Demo.accepting Demo.rendering
          (Demo.act "delete" "artifact_1") (Some "u1") Demo.shelf).2)
  = Some Demo.note.
Proof.
  apply (artifact_owner_guard Demo.accepting Demo.rendering
           (Demo.act "delete" "artifact_1") (Some "u1") "u1" "artifact_1"
           Demo.note "u2" Demo.shelf).
  - reflexivity.
  - reflexivity.
  - reflexivity.
  - discriminate.
  - intros H. vm_compute in H. discriminate H.
Defined.

Lemma well_filed_shelf : well_filed Demo.shelf.
Proof.
  split.
  - apply NoDup_singleton.
  - intros k a Hin. apply list_elem_of_singleton in Hin. by injection Hin as -> ->.
Defined.

Lemma artifact_store_invariants_witness :
  well_filed
    (Artifact.handler Demo.accepting Demo.rendering Demo.new_note (Some "u1")
       Demo.shelf).2.
Proof.
  apply (proj1 (artifact_store_invariants Demo.accepting Demo.rendering
                  Demo.new_note (Some "u1") Demo.shelf well_filed_shelf)).
Defined.

Lemma artifact_get_ignores_owner_witness :
  ∃ body, ∀ caller,
    Artifact.handler Demo.accepting Demo.rendering (Demo.act "get" "artifact_1")
      caller Demo.shelf
    = (tool_text (Artifact.userPrefix caller +:+ body), Demo.shelf).
Proof.
  destruct (artifact_get_ignores_owner Demo.accepting Demo.rendering
              (Demo.act "get" "artifact_1") "artifact_1" Demo.note Demo.shelf)
    as (body & Hbody & _).
  - reflexivity.
  - reflexivity.
  - discriminate.
  - reflexivity.
  - by exists body.
Defined.

Lemma artifact_list_visibility_witness :
  descending (Artifact.userArtifacts (Some "u1") Demo.shelf).
Proof.
  apply (artifact_list_visibility Demo.accepting Demo.rendering
           [("action", JStr "list")] (Some "u1") Demo.shelf).
  reflexivity.
Defined.

Lemma artifact_create_then_get_witness :
  ∃ a,
    Artifact.lookup (Artifact.artifactId Demo.accepting Demo.shelf)
      (Artifact.artifacts
         (Artifact.handler Demo.accepting Demo.rendering Demo.new_note (Some "u1")
            Demo.shelf).2)
    = Some a
    ∧ Artifact.content a = JStr "buy bread"
    ∧ Artifact.userId a = Some "u1".
Proof.
  destruct (artifact_create_then_get Demo.accepting Demo.rendering Demo.new_note
              "todo" "markdown" "buy bread" (Some "u1") Demo.shelf)
    as (a & Ha & _ & _ & _ & Hc & Hu & _).
  - reflexivity.
  - reflexivity.
  - reflexivity.
  - reflexivity.
  - discriminate.
  - discriminate.
  - discriminate.
  - by exists a.
Defined.

Lemma artifact_delete_then_get_witness :
  Artifact.lookup "artifact_1"
    (Artifact.artifacts
       (Artifact.handler Demo.accepting Demo.rendering
          (Demo.act "delete" "artifact_1") (Some "u2") Demo.shelf).2)
  = None.
Proof.
  apply (artifact_delete_then_get Demo.accepting Demo.rendering
           (Demo.act "delete" "artifact_1") "artifact_1" Demo.note (Some "u2")
           Demo.shelf).
  - apply well_filed_shelf.
  - reflexivity.
  - reflexivity.
  - discriminate.
  - reflexivity.
  - right. right. reflexivity.
Defined.
